(** * E-bid: bidding, listing, the auction scheduler and their middleware

    A shallow embedding of the auction back end, over the tables that
    [backend/config/database.js] creates:
    - [backend/routes/bids.js]: the [POST /] handler that places a bid,
      and the three reading routes (public bid list, own bids, history);
    - [backend/utils/scheduler.js]: [processEndingAuctions] and
      [endAuction], the manual close, the proxy sweep, and the job
      bookkeeping of [start], [stop] and [getJobStatus];
    - [backend/routes/auctions.js]: the [POST /] handler that creates a
      listing;
    - [backend/middleware/auth.js], the cache of [backend/config/redis.js]
      and the auction rooms of [backend/sockets/socketHandler.js].

    Conventions of the model.
    - Money in the tables is counted in cents: a [DECIMAL(10,2)] column
      holds a whole number of cents of fewer than ten digits, and a value
      that does not fit is refused by the database.  Request amounts are
      taken to be whole cents as well.
    - The handlers compute on JavaScript numbers.  The doubles they
      compare and add are modelled exactly; the lemmas on them show where
      the outcome is the one of exact cents and where it is not.  An
      amount in an answer or an event is given in cents, to the nearest
      cent.
    - Time is counted in milliseconds ([Z]); one handler invocation reads
      the clock once ([now]).
    - A transaction either commits every write or none: a request that is
      refused, or that fails, returns the store it was given.
    - A statement that names a table or a column which [createTables] does
      not create is refused by PostgreSQL; the code that would follow it
      is kept, behind the test that decides that it is not reached.
    - [place_bid] is first given over the tables alone, with the payloads
      it emits; the cache and the users are added around it further
      down. *)

From Stdlib Require Import ZArith Lia.
From Stdlib Require Import DecimalString Ascii.
From stdpp Require Import sorting pretty.
From stdpp Require Import base option list strings gmap.

Local Open Scope Z_scope.

(** ** JavaScript numbers *)

(** A finite double is a whole multiple of [2^-1074], the least positive
    double; [finite u] is the double [u * 2^-1074].  Sums and comparisons
    of finite doubles are then sums and comparisons of integers, and only
    rounding is left to define. *)
Inductive double :=
  | finite (units : Z)
  | infinity (negative : bool).

(** The integer nearest to [n / d], for [0 < d]; of two that are equally
    near, the even one. *)
Definition nearest_even (n d : Z) : Z :=
  let q := n / d in
  let r := n mod d in
  if 2 * r <? d then q
  else if d <? 2 * r then q + 1
  else if Z.even q then q else q + 1.

(** The distance between the doubles around [n / d] units: one unit up to
    [2^53] units (the subnormal numbers and the first normal ones), and
    [2^(e - 52)] units between [2^e] and [2^(e + 1)]. *)
Definition spacing (n d : Z) : Z := 2 ^ Z.max 0 (Z.log2 (Z.abs n / d) - 52).

(** The double nearest to [n / d] units, ties to even; beyond the largest
    double, an infinity. *)
Definition round_ratio (n d : Z) : double :=
  let m := nearest_even n (d * spacing n d) * spacing n d in
  if 2 ^ 2098 <=? Z.abs m then infinity (m <? 0) else finite m.

(** The number 1 in units. *)
Definition one_unit : Z := 2 ^ 1074.

(** [parseFloat] of an amount of [z] cents, be it a decimal text of the
    driver (["2.03"]) or a number of the request body: the double nearest
    to [z / 100]. *)
Definition parseFloat_cents (z : Z) : double := round_ratio (z * one_unit) 100.

(** [x + y] *)
Definition double_add (x y : double) : double :=
  match x, y with
  | finite a, finite b => round_ratio (a + b) 1
  | infinity s, _ => infinity s
  | _, infinity s => infinity s
  end.

(** [x < y], [x <= y], [Math.min(x, y)] *)
Definition double_lt (x y : double) : bool :=
  match x, y with
  | finite a, finite b => a <? b
  | finite _, infinity s => negb s
  | infinity s, finite _ => s
  | infinity s, infinity s' => s && negb s'
  end.

Definition double_le (x y : double) : bool := negb (double_lt y x).

Definition Math_min (x y : double) : double := if double_lt y x then y else x.

(** The whole number of cents nearest to a double, halves away from zero:
    what [x.toFixed(2)] prints, and what a [DECIMAL(10,2)] column makes of
    the number it is handed.  (The column rounds the decimal text of the
    number, which is the shortest text that reads back as the same
    double; the two agree wherever the double is nearer to a whole cent
    than to a half cent, which holds of every double that gets here and
    is within the range of the column, see [plus_increment_close] and
    [parseFloat_cents_close].) *)
Definition nearest_cent (x : double) : option Z :=
  match x with
  | finite u => Some (Z.sgn u * ((200 * Z.abs u + one_unit) / (2 * one_unit)))
  | infinity _ => None
  end.

(** The slack of the rounding lemmas: [2^-18] of a unit. *)
Definition slack : Z := 2 ^ 1056.

(** ** Tables *)

(** The values of a [DECIMAL(10,2)] column, in cents: at most eight digits
    before the point. *)
Definition in_decimal_10_2 (z : Z) : bool :=
  (-10000000000 <? z) && (z <? 10000000000).

Record decimal := Decimal {
  cents : Z;
  cents_ok : Is_true (in_decimal_10_2 cents)
}.

(** Handing a whole number of cents to a [DECIMAL(10,2)] column; [None] is
    PostgreSQL's "numeric field overflow". *)
Definition numeric (z : Z) : option decimal :=
  match in_decimal_10_2 z as b return (Is_true b -> decimal) -> option decimal with
  | true => fun k => Some (k I)
  | false => fun _ => None
  end (Decimal z).

(** Handing it a JavaScript number. *)
Definition numeric_of_double (x : double) : option decimal :=
  nearest_cent x ≫= numeric.

(** The amounts of the examples; the number is taken to fit. *)
Definition dec (z : Z) : decimal := default (Decimal 0 I) (numeric z).

(** The values [auctions.status] may take, by the column's [CHECK]. *)
Inductive auction_status :=
  | Draft | Active | Ended | Cancelled | Sold.

#[global] Instance auction_status_eq_dec : EqDecision auction_status.
Proof. solve_decision. Defined.

(** A row of [auctions] (the columns the modules read or write); the
    primary key is the key of the map that holds the row. *)
Record auction := {
  seller_id : Z;
  col_starting_price : decimal;
  col_current_price : decimal;
  col_reserve_price : option decimal;
  col_buy_now_price : option decimal;
  status : auction_status;
  end_time : Z;
  bid_count : Z;
  winner_id : option Z
}.

(** The money columns, in cents. *)
Definition starting_price (a : auction) : Z := cents (col_starting_price a).
Definition current_price (a : auction) : Z := cents (col_current_price a).
Definition reserve_price (a : auction) : option Z := cents <$> col_reserve_price a.
Definition buy_now_price (a : auction) : option Z := cents <$> col_buy_now_price a.

(** A row of [bids]. *)
Record bid := {
  bid_id : Z;
  auction_id : Z;
  bidder_id : Z;
  col_amount : decimal;
  col_max_bid : option decimal;
  is_winning : bool;
  is_auto_bid : bool;
  created_at : Z
}.

Definition amount (b : bid) : Z := cents (col_amount b).
Definition max_bid (b : bid) : option Z := cents <$> col_max_bid b.

(** The database: auctions by id, bids in insertion order. *)
Record store := {
  auctions : gmap Z auction;
  bids : list bid
}.

(** The columns of the two tables, as [createTables] lists them. *)
Definition auctions_columns : list string :=
  ["id"; "seller_id"; "category_id"; "title"; "description"; "condition";
   "starting_price"; "current_price"; "reserve_price"; "buy_now_price";
   "shipping_cost"; "cod_locations"; "images"; "status"; "start_time";
   "end_time"; "bid_count"; "view_count"; "watch_count"; "winner_id";
   "is_featured"; "created_at"; "updated_at"].

Definition bids_columns : list string :=
  ["id"; "auction_id"; "bidder_id"; "amount"; "max_bid"; "is_winning";
   "is_auto_bid"; "created_at"].

(** The tables [createTables] creates. *)
Definition tables : list string :=
  ["users"; "categories"; "auctions"; "bids"; "watchlist"; "reports";
   "notifications"].

(** ** Requests, responses, events *)

(** [req.body] of [POST /api/bids] and [req.user.id]. *)
Record request := {
  auctionId : Z;
  bidAmount : Z;          (* body.amount *)
  maxBid : option Z;      (* body.maxBid, optional *)
  bidderId : Z            (* req.user.id *)
}.

(** The payload of [io.emit('bid_placed', ...)], amounts in cents.
    [ev_timeRemaining] is in milliseconds; the handler divides it by
    1000. *)
Record bid_placed_payload := {
  ev_auctionId : Z;
  ev_bidId : Z;
  ev_bidderId : Z;
  ev_amount : Z;
  ev_currentPrice : Z;
  ev_isWinning : bool;
  ev_bidCount : Z;
  ev_timeRemaining : Z
}.

Inductive event :=
  | bid_placed (p : bid_placed_payload)
  | auction_ended_buy_now (auctionId winnerId finalPrice : Z)
  | auction_ended (auctionId : Z) (st : string)
                  (winnerId : option Z) (finalPrice : Z).

(** The JSON answers of the handler.  The amount of [BidTooLow] is the one
    its message prints, [requiredMinBid.toFixed(2)]. *)
Inductive response :=
  | ValidationFailed                       (* 400 'Validation failed' *)
  | AuctionNotFound                        (* 404 'Auction not found or has ended' *)
  | OwnAuction                             (* 400 'Cannot bid on your own auction' *)
  | BidTooLow (minimumBid : Z)             (* 400 'Bid must be at least ...' *)
  | ServerError                            (* 500 'Failed to place bid' *)
  | BuyNowSuccessful (winnerId finalPrice : Z)
  | BidPlaced (newBid : bid) (currentPrice bidCount : Z).

(** The answers that report an error. *)
Definition rejected (r : response) : bool :=
  match r with
  | ValidationFailed | AuctionNotFound | OwnAuction | BidTooLow _
  | ServerError => true
  | BuyNowSuccessful _ _ | BidPlaced _ _ _ => false
  end.

(** ** The [UPDATE] statements *)

Definition update_auction (f : auction -> auction) (id : Z) (s : store) : store :=
  {| auctions := alter f id (auctions s); bids := bids s |}.

(** [SET current_price = $1, status = 'sold', winner_id = $2, end_time = NOW()] *)
Definition set_buy_now (price : decimal) (bidder now : Z) (a : auction) : auction :=
  {| seller_id := seller_id a; col_starting_price := col_starting_price a;
     col_current_price := price; col_reserve_price := col_reserve_price a;
     col_buy_now_price := col_buy_now_price a; status := Sold; end_time := now;
     bid_count := bid_count a; winner_id := Some bidder |}.

(** [SET current_price = $1] *)
Definition set_price (price : decimal) (a : auction) : auction :=
  {| seller_id := seller_id a; col_starting_price := col_starting_price a;
     col_current_price := price; col_reserve_price := col_reserve_price a;
     col_buy_now_price := col_buy_now_price a; status := status a;
     end_time := end_time a; bid_count := bid_count a;
     winner_id := winner_id a |}.

(** [SET current_price = $1, bid_count = bid_count + 1] *)
Definition set_price_count (price : decimal) (a : auction) : auction :=
  {| seller_id := seller_id a; col_starting_price := col_starting_price a;
     col_current_price := price; col_reserve_price := col_reserve_price a;
     col_buy_now_price := col_buy_now_price a; status := status a;
     end_time := end_time a; bid_count := bid_count a + 1;
     winner_id := winner_id a |}.

(** [SET end_time = $1] *)
Definition set_end_time (t : Z) (a : auction) : auction :=
  {| seller_id := seller_id a; col_starting_price := col_starting_price a;
     col_current_price := col_current_price a;
     col_reserve_price := col_reserve_price a;
     col_buy_now_price := col_buy_now_price a; status := status a;
     end_time := t; bid_count := bid_count a;
     winner_id := winner_id a |}.

(** [UPDATE bids SET is_winning = false WHERE auction_id = $1 AND is_winning = true] *)
Definition clear_winning (id : Z) (b : bid) : bid :=
  if decide (auction_id b = id /\ is_winning b = true) then
    {| bid_id := bid_id b; auction_id := auction_id b; bidder_id := bidder_id b;
       col_amount := col_amount b; col_max_bid := col_max_bid b;
       is_winning := false; is_auto_bid := is_auto_bid b;
       created_at := created_at b |}
  else b.

Definition insert_bid (b : bid) (s : store) : store :=
  {| auctions := auctions s; bids := bids s ++ [b] |}.

(** The next value of the [SERIAL] key of [bids]. *)
Definition next_bid_id (s : store) : Z := Z.of_nat (length (bids s)) + 1.

(** ** [POST /api/bids] *)

(** [minBidIncrement = 1.00], in cents and as the number the handler
    adds. *)
Definition minBidIncrement : Z := 100.
Definition minBidIncrement_number : double := finite one_unit.

Definition fiveMinutes : Z := 5 * 60 * 1000.

(** express-validator: [amount] is a float of at least 0.01, [maxBid],
    when present, too. *)
Definition valid_request (r : request) : bool :=
  (1 <=? bidAmount r) &&
  match maxBid r with Some m => 1 <=? m | None => true end.

(** [WHERE a.id = $1 AND a.status = 'active' AND a.end_time > NOW()] *)
Definition select_active_auction (now : Z) (s : store) (id : Z) : option auction :=
  match auctions s !! id with
  | Some a => if decide (status a = Active /\ now < end_time a) then Some a else None
  | None => None
  end.

(** [const requiredMinBid = parseFloat(auction.current_price) + minBidIncrement] *)
Definition requiredMinBid (a : auction) : double :=
  double_add (parseFloat_cents (current_price a)) minBidIncrement_number.

(** [parseFloat(amount) < requiredMinBid] *)
Definition below_required_minimum (r : request) (a : auction) : bool :=
  double_lt (parseFloat_cents (bidAmount r)) (requiredMinBid a).

(** [requiredMinBid.toFixed(2)], in cents. *)
Definition requiredMinBid_toFixed (a : auction) : Z :=
  default 0 (nearest_cent (requiredMinBid a)).

(** The rows [WHERE auction_id = $1 AND is_winning = true]. *)
Definition winning_bids (l : list bid) (id : Z) : list bid :=
  filter (fun b => auction_id b = id /\ is_winning b = true) l.

(** [ORDER BY created_at DESC LIMIT 1]: the row created last; among rows
    of one timestamp SQL leaves the choice open, the later row is taken. *)
Definition latest_bid (l : list bid) : option bid :=
  foldl (fun acc b =>
           match acc with
           | Some c => if decide (created_at c <= created_at b) then Some b else Some c
           | None => Some b
           end) None l.

Definition current_highest_bid (s : store) (id : Z) : option bid :=
  latest_bid (winning_bids (bids s) id).

(** [currentHighestBid.max_bid || currentHighestBid.amount], in cents: a
    decimal column that is not null is a non-empty text, hence truthy. *)
Definition currentMaxBid (c : bid) : Z := default (amount c) (max_bid c).

(** [maxBid || amount], in cents. *)
Definition newMaxBid (r : request) : Z := default (bidAmount r) (maxBid r).

(** The buy-now branch; [price] is [auction.buy_now_price]. *)
Definition buy_now (now : Z) (r : request) (price : decimal) (s : store)
    : response * list event * store :=
  let s1 := update_auction (set_buy_now price (bidderId r) now) (auctionId r) s in
  let s2 := insert_bid
              {| bid_id := next_bid_id s1; auction_id := auctionId r;
                 bidder_id := bidderId r; col_amount := price; col_max_bid := None;
                 is_winning := true; is_auto_bid := false; created_at := now |} s1 in
  (BuyNowSuccessful (bidderId r) (cents price),
   [auction_ended_buy_now (auctionId r) (bidderId r) (cents price)], s2).

(** The proxy bidding logic: the new current price (as the column takes
    it, in cents), the new bid's [isWinning] flag, and the store after
    the branch's updates; [None] when the column refuses the price. *)
Definition proxy_bidding (r : request) (s : store) : option (Z * bool * store) :=
  match current_highest_bid s (auctionId r) with
  | Some currentHighestBid =>
      let currentMaxBid := parseFloat_cents (currentMaxBid currentHighestBid) in
      let newMaxBid := parseFloat_cents (newMaxBid r) in
      if double_le newMaxBid currentMaxBid then
        let newCurrentPrice :=
          Math_min (double_add newMaxBid minBidIncrement_number) currentMaxBid in
        price ← numeric_of_double newCurrentPrice;
        Some (cents price, false,
              update_auction (set_price price) (auctionId r) s)
      else
        let newCurrentPrice :=
          Math_min (double_add currentMaxBid minBidIncrement_number) newMaxBid in
        price ← numeric_of_double newCurrentPrice;
        let s1 := {| auctions := auctions s;
                     bids := clear_winning (auctionId r) <$> bids s |} in
        Some (cents price, true,
              update_auction (set_price_count price) (auctionId r) s1)
  | None =>
      price ← numeric_of_double (parseFloat_cents (bidAmount r));
      Some (cents price, true,
            update_auction (set_price_count price) (auctionId r) s)
  end.

(** Anti-snipe protection; [a] is the row read at the start of the
    handler. *)
Definition anti_snipe (now : Z) (a : auction) (id : Z) (s : store) : store :=
  let timeRemaining := end_time a - now in
  if decide (timeRemaining < fiveMinutes) then
    update_auction (set_end_time (now + fiveMinutes)) id s
  else s.

(** The ordinary path, after the buy-now check.  A value that a column
    refuses makes its statement throw: the transaction is rolled back and
    the answer is 500. *)
Definition normal_bid (now : Z) (r : request) (a : auction) (s : store)
    : response * list event * store :=
  match proxy_bidding r s, numeric (bidAmount r), numeric (newMaxBid r) with
  | Some (newCurrentPrice, isWinning, s1), Some amount, Some max_bid =>
      let s2 := anti_snipe now a (auctionId r) s1 in
      let newBid :=
        {| bid_id := next_bid_id s2; auction_id := auctionId r;
           bidder_id := bidderId r; col_amount := amount;
           col_max_bid := Some max_bid; is_winning := isWinning;
           is_auto_bid := false; created_at := now |} in
      let s3 := insert_bid newBid s2 in
      (BidPlaced newBid newCurrentPrice (bid_count a + 1),
       [bid_placed
          {| ev_auctionId := auctionId r; ev_bidId := bid_id newBid;
             ev_bidderId := bidderId r; ev_amount := bidAmount r;
             ev_currentPrice := newCurrentPrice; ev_isWinning := isWinning;
             ev_bidCount := bid_count a + 1;
             ev_timeRemaining := Z.max 0 (end_time a - now) |}],
       s3)
  | _, _, _ => (ServerError, [], s)
  end.

(** [auction.buy_now_price && parseFloat(amount) >= parseFloat(auction.buy_now_price)]:
    a non-null decimal column is a non-empty text, hence truthy. *)
Definition buy_now_applies (r : request) (a : auction) : option decimal :=
  match col_buy_now_price a with
  | Some p =>
      if double_le (parseFloat_cents (cents p)) (parseFloat_cents (bidAmount r))
      then Some p else None
  | None => None
  end.

Definition place_bid (now : Z) (r : request) (s : store)
    : response * list event * store :=
  if negb (valid_request r) then (ValidationFailed, [], s) else
  match select_active_auction now s (auctionId r) with
  | None => (AuctionNotFound, [], s)
  | Some a =>
      if decide (seller_id a = bidderId r) then (OwnAuction, [], s) else
      if below_required_minimum r a then (BidTooLow (requiredMinBid_toFixed a), [], s) else
      match buy_now_applies r a with
      | Some price => buy_now now r price s
      | None => normal_bid now r a s
      end
  end.

(** ** The scheduler: statements against the tables *)

(** What makes a statement of the scheduler throw. *)
Inductive failure :=
  | undefined_table (table : string)              (* relation does not exist *)
  | undefined_column (table column : string)      (* column does not exist *)
  | check_violation (table column : string)       (* violates check constraint *)
  | numeric_overflow                              (* numeric field overflow *)
  | undefined_import (name : string).             (* TypeError: reading a property of undefined *)

(** The names [config/redis.js] exports; [scheduler.js] and
    [notifications.js] take [realtime] from it. *)
Definition redis_exports : list string :=
  ["connectRedis"; "redisClient"; "cache"; "CACHE_KEYS"; "CHANNELS"]%string.

(** The integer columns of [bids], by name. *)
Definition bids_integer (column : string) : option (bid -> Z) :=
  if decide (column = "id"%string) then Some bid_id
  else if decide (column = "auction_id"%string) then Some auction_id
  else if decide (column = "bidder_id"%string) then Some bidder_id
  else None.

(** The [CHECK] of [auctions.status]. *)
Definition status_of_text (t : string) : option auction_status :=
  if decide (t = "draft"%string) then Some Draft
  else if decide (t = "active"%string) then Some Active
  else if decide (t = "ended"%string) then Some Ended
  else if decide (t = "cancelled"%string) then Some Cancelled
  else if decide (t = "sold"%string) then Some Sold
  else None.

(** A statement that names [columns] of a table that has [known]: the
    first one the table has not, if any. *)
Definition missing_column (table : string) (known columns : list string)
    : option failure :=
  undefined_column table <$>
    head (filter (fun c => c ∉ known) columns).

(** ** [processEndingAuctions] and [endAuction] *)

(** The text node-postgres hands over for a [DECIMAL(10,2)] column: the
    integer part, a point, two decimals.  [bids.js], [auctions.js] and
    [processProxyBids] pass these values through [parseFloat] before
    using them; [endAuction] uses them as they come. *)
Definition two_digits (n : N) : String.string :=
  let d := NilZero.string_of_uint (N.to_uint n) in
  if (n <? 10)%N then String.append "0"%string d else d.

Definition decimal_text (cents : Z) : String.string :=
  let n := Z.to_N cents in
  String.append (NilZero.string_of_uint (N.to_uint (n / 100)))
    (String.append "."%string (two_digits (n mod 100))).

(** JavaScript's [x >= y] on two strings: the comparison is by code units,
    left to right. *)
Definition js_string_ge (x y : String.string) : bool :=
  negb (String.ltb x y).

(** A row of the query of [processEndingAuctions]. *)
Record ending_auction := {
  row_id : Z;
  row_seller_id : Z;
  row_current_price : Z;
  row_reserve_price : option Z;
  row_starting_price : Z;
  row_end_time : Z;
  row_winner_id : option Z;
  row_winning_bid : option Z
}.

(** [ORDER BY amount DESC, created_at ASC LIMIT 1] over the auction's
    bids; among rows equal on both keys the earlier row is taken. *)
Definition highest_bid (l : list bid) (id : Z) : option bid :=
  foldl (fun acc b =>
           match acc with
           | Some c =>
               if decide (amount c < amount b \/
                          (amount c = amount b /\ created_at b < created_at c))
               then Some b else Some c
           | None => Some b
           end) None (filter (fun b => auction_id b = id) l).

(** The row of one auction; [user_id] reads the column of that name in
    the highest bid. *)
Definition ending_row (user_id : bid -> Z) (s : store) (ia : Z * auction)
    : ending_auction :=
  let top := highest_bid (bids s) ia.1 in
  {| row_id := ia.1; row_seller_id := seller_id ia.2;
     row_current_price := current_price ia.2;
     row_reserve_price := reserve_price ia.2;
     row_starting_price := starting_price ia.2;
     row_end_time := end_time ia.2;
     row_winner_id := user_id <$> top;
     row_winning_bid := amount <$> top |}.

(** The query of the sweep:
    [SELECT ..., (SELECT user_id FROM bids WHERE auction_id = a.id ORDER BY
    amount DESC, created_at ASC LIMIT 1) as winner_id, ... FROM auctions a
    WHERE a.status = 'active' AND a.end_time <= NOW()].
    PostgreSQL resolves the columns before it reads a row. *)
Definition ending_auctions (now : Z) (s : store) : failure + list ending_auction :=
  match bids_integer "user_id" with
  | Some user_id =>
      inr (ending_row user_id s <$>
             map_to_list (filter (fun ia : Z * auction =>
                                    status ia.2 = Active /\ end_time ia.2 <= now)
                                 (auctions s)))
  | None => inl (undefined_column "bids" "user_id")
  end.

(** [auction.winner_id && auction.winning_bid]: an integer is truthy when
    it is not zero, a decimal text when it is there. *)
Definition has_winning_bid (row : ending_auction) : option (Z * Z) :=
  match row_winner_id row, row_winning_bid row with
  | Some w, Some p => if decide (w = 0) then None else Some (w, p)
  | _, _ => None
  end.

(** [!auction.reserve_price || auction.winning_bid >= auction.reserve_price] *)
Definition reserve_met (row : ending_auction) (winning_bid : Z) : bool :=
  match row_reserve_price row with
  | None => true
  | Some reserve => js_string_ge (decimal_text winning_bid) (decimal_text reserve)
  end.

(** The status, winner and final price [endAuction] settles on. *)
Definition end_decision (row : ending_auction) : string * option Z * Z :=
  match has_winning_bid row with
  | Some (w, p) =>
      if reserve_met row p then ("completed"%string, Some w, p)
      else ("ended"%string, None, row_starting_price row)
  | None => ("ended"%string, None, row_starting_price row)
  end.

(** [SET status = $1, winner_id = $2] *)
Definition set_closed (st : auction_status) (winner : option Z) (a : auction)
    : auction :=
  {| seller_id := seller_id a; col_starting_price := col_starting_price a;
     col_current_price := col_current_price a;
     col_reserve_price := col_reserve_price a;
     col_buy_now_price := col_buy_now_price a; status := st;
     end_time := end_time a; bid_count := bid_count a; winner_id := winner |}.

(** The body of the [try] of [endAuction], statement by statement, up to
    the first that throws. *)
Definition endAuction_try (row : ending_auction) (s : store)
    : failure + (list event * store) :=
  let '(st, winnerId, finalPrice) := end_decision row in
  (* UPDATE auctions SET status = $1, winner_id = $2, final_price = $3
     WHERE id = $4 *)
  match missing_column "auctions" auctions_columns
          ["status"; "winner_id"; "final_price"; "id"]%string,
        status_of_text st with
  | Some e, _ => inl e
  | None, None => inl (check_violation "auctions" "status")
  | None, Some st' =>
      let s1 := update_auction (set_closed st' winnerId) (row_id row) s in
      (* INSERT INTO orders (...) *)
      if decide (st = "completed"%string /\ "orders"%string ∉ tables)
      then inl (undefined_table "orders") else
      (* sendNotification(...); realtime.publish(...) *)
      if decide ("realtime"%string ∈ redis_exports)
      then inr ([auction_ended (row_id row) st winnerId finalPrice], s1)
      else inl (undefined_import "realtime")
  end.

(** [endAuction]: [COMMIT] at the end of the body, [ROLLBACK] in the
    [catch]. *)
Definition endAuction (row : ending_auction) (s : store) : list event * store :=
  match endAuction_try row s with
  | inr done => done
  | inl _ => ([], s)
  end.

(** The [for] loop of [processEndingAuctions] over the selected rows. *)
Definition end_all (acc : list event * store) (rows : list ending_auction)
    : list event * store :=
  foldl (fun (acc : list event * store) row =>
           let '(evs, s') := endAuction row acc.2 in (acc.1 ++ evs, s'))
        acc rows.

(** [processEndingAuctions]: a query that throws leaves the loop out; the
    [catch] logs the error. *)
Definition processEndingAuctions (now : Z) (s : store) : list event * store :=
  match ending_auctions now s with
  | inr rows => end_all ([], s) rows
  | inl _ => ([], s)
  end.

(** [processAuctionEnding(auctionId)], the manual close.  Its row comes
    from [SELECT * FROM auctions WHERE id = $1 AND status = 'active']:
    [winner_id] is the auction's own column, and there is no [winning_bid]
    in it.  The answer is whether a row was found. *)
Definition manual_row (id : Z) (a : auction) : ending_auction :=
  {| row_id := id; row_seller_id := seller_id a;
     row_current_price := current_price a;
     row_reserve_price := reserve_price a;
     row_starting_price := starting_price a;
     row_end_time := end_time a;
     row_winner_id := winner_id a;
     row_winning_bid := None |}.

Definition processAuctionEnding (id : Z) (s : store) : bool * list event * store :=
  match auctions s !! id with
  | Some a =>
      if decide (status a = Active) then
        let '(evs, s') := endAuction (manual_row id a) s in (true, evs, s')
      else (false, [], s)
  | None => (false, [], s)
  end.

(** ** [processProxyBids] and [executeProxyBid] *)

(** A row of the query of [processProxyBids], amounts in cents. *)
Record proxy_row := {
  pb_id : Z;
  pb_user_id : Z;
  pb_auction_id : Z;
  pb_max_amount : Z;
  pb_increment : Z;
  pb_current_price : Z;
  pb_highest_bidder : option Z
}.

(** The query reads [FROM proxy_bids pb JOIN auctions a ON ...]: the store
    holds the tables of [createTables], and no row of any other. *)
Definition proxy_rows (now : Z) (s : store) : failure + list proxy_row :=
  if decide ("proxy_bids"%string ∈ tables) then inr []
  else inl (undefined_table "proxy_bids").

(** The body of the [try] of [executeProxyBid], up to the first statement
    that throws. *)
Definition executeProxyBid_try (now : Z) (row : proxy_row) (bidAmount : double)
    (s : store) : failure + store :=
  (* INSERT INTO bids (auction_id, user_id, amount, is_proxy) ... *)
  match missing_column "bids" bids_columns
          ["auction_id"; "user_id"; "amount"; "is_proxy"]%string,
        numeric_of_double bidAmount with
  | Some e, _ => inl e
  | None, None => inl numeric_overflow
  | None, Some price =>
      let s1 := insert_bid
                  {| bid_id := next_bid_id s; auction_id := pb_auction_id row;
                     bidder_id := pb_user_id row; col_amount := price;
                     col_max_bid := None; is_winning := false;
                     is_auto_bid := false; created_at := now |} s in
      (* UPDATE auctions SET current_price = $1 WHERE id = $2 *)
      let s2 := update_auction (set_price price) (pb_auction_id row) s1 in
      (* UPDATE proxy_bids SET is_active = false WHERE id = $1 *)
      if decide (double_le (parseFloat_cents (pb_max_amount row)) bidAmount = true
                 /\ "proxy_bids"%string ∉ tables)
      then inl (undefined_table "proxy_bids")
      else inr s2
  end.

Definition executeProxyBid (now : Z) (row : proxy_row) (bidAmount : double)
    (s : store) : store :=
  match executeProxyBid_try now row bidAmount s with
  | inr s' => s'
  | inl _ => s
  end.

(** The body of the loop of [processProxyBids]. *)
Definition proxy_step (now : Z) (s : store) (row : proxy_row) : store :=
  if decide (pb_highest_bidder row = Some (pb_user_id row)) then s
  else
    let currentPrice := parseFloat_cents (pb_current_price row) in
    let increment := parseFloat_cents (pb_increment row) in
    let maxAmount := parseFloat_cents (pb_max_amount row) in
    let nextBidAmount := double_add currentPrice increment in
    if double_le nextBidAmount maxAmount
    then executeProxyBid now row nextBidAmount s
    else s.

(** [processProxyBids]: a query that throws leaves the loop out; the
    [catch] logs the error. *)
Definition processProxyBids (now : Z) (s : store) : store :=
  match proxy_rows now s with
  | inr rows => foldl (proxy_step now) s rows
  | inl _ => s
  end.

(** ** Runs *)

(** The operations that write to an auction or its bids: a bid request,
    the two sweeps of the scheduler and its manual close, each with the
    time at which it runs. *)
Inductive operation :=
  | PlaceBid (now : Z) (r : request)
  | Tick (now : Z)                       (* processEndingAuctions *)
  | ProxyTick (now : Z)                  (* processProxyBids *)
  | Close (id : Z).                      (* processAuctionEnding *)

Definition step (s : store) (o : operation) : store :=
  match o with
  | PlaceBid now r => (place_bid now r s).2
  | Tick now => (processEndingAuctions now s).2
  | ProxyTick now => processProxyBids now s
  | Close id => (processAuctionEnding id s).2
  end.

Definition run (s : store) (ops : list operation) : store := foldl step s ops.

(** ** Predicates of the statements *)

(** The requests the handler lets through to the buy-now check and the
    price logic: a valid body, an active auction that has not run out, a
    bidder who is not the seller, and an amount that the handler's own
    test does not find below the current price plus the increment. *)
Record admitted (now : Z) (r : request) (s : store) (a : auction) : Prop := {
  admitted_valid : valid_request r = true;
  admitted_row : select_active_auction now s (auctionId r) = Some a;
  admitted_bidder : seller_id a <> bidderId r;
  admitted_amount : below_required_minimum r a = false
}.

(** What the ordinary path leaves in the auction's own row: the new
    price, and every column but the price, the bid count and the end time
    as before. *)
Definition same_listing (a a' : auction) : Prop :=
  seller_id a' = seller_id a /\ starting_price a' = starting_price a /\
  reserve_price a' = reserve_price a /\ buy_now_price a' = buy_now_price a /\
  status a' = status a /\ winner_id a' = winner_id a.

Definition is_bid_placed (resp : response) : bool :=
  match resp with BidPlaced _ _ _ => true | _ => false end.




(** ** Scenarios *)

(** One listing, auction 7 of seller 1, open for an hour from time 0. *)
Definition listing (start : Z) (reserve buyNow : option Z) : auction :=
  {| seller_id := 1; col_starting_price := dec start;
     col_current_price := dec start;
     col_reserve_price := dec <$> reserve; col_buy_now_price := dec <$> buyNow;
     status := Active; end_time := 3600000; bid_count := 0;
     winner_id := None |}.

Definition shop (a : auction) : store :=
  {| auctions := {[ 7 := a ]}; bids := [] |}.

Definition bid_on7 (bidder amt : Z) (mx : option Z) : request :=
  {| auctionId := 7; bidAmount := amt; maxBid := mx; bidderId := bidder |}.

(** Bidder 2 opens at 11.00 with a proxy maximum of 100.00. *)
Definition opening : request := bid_on7 2 1100 (Some 10000).

Definition after_opening : store := (place_bid 0 opening (shop (listing 1000 None None))).2.

Definition opening_row : auction :=
  {| seller_id := 1; col_starting_price := dec 1000;
     col_current_price := dec 1100;
     col_reserve_price := None; col_buy_now_price := None; status := Active;
     end_time := 3600000; bid_count := 1; winner_id := None |}.

Definition opening_bid : bid :=
  {| bid_id := 1; auction_id := 7; bidder_id := 2; col_amount := dec 1100;
     col_max_bid := Some (dec 10000); is_winning := true; is_auto_bid := false;
     created_at := 0 |}.

(** ** Users, and the Redis cache of [config/redis.js] *)

(** The values of [users.role]. *)
Inductive user_role := buyer | seller | admin | moderator.

#[global] Instance user_role_eq_dec : EqDecision user_role.
Proof. solve_decision. Defined.

(** A row of [users] (the columns the bid routes and the middleware
    read); the primary key is the key of the map. *)
Record user := {
  username : string;
  email : string;
  role : user_role;
  user_is_active : bool;
  reputation_score : Z
}.

(** The store together with the users. *)
Record database := {
  db_store : store;
  db_users : gmap Z user
}.

(** A row of the public bid list ([GET /api/bids/auction/:auctionId]). *)
Record public_bid := {
  pub_id : Z;
  pub_amount : Z;
  pub_isWinning : bool;
  pub_isAutoBid : bool;
  pub_createdAt : Z;
  pub_bidder_username : string;
  pub_bidder_reputation : Z
}.

(** What a cache entry holds: the body of a bid list, or the JSON of
    another route.  [JSON.parse (JSON.stringify v)] is taken to give [v]
    back. *)
Inductive cached :=
  | BidsBody (rows : list public_bid)
  | OtherBody (json : string).

(** An entry with the time it expires at ([setEx]). *)
Record cache_entry := {
  ce_value : cached;
  ce_expires : Z
}.

(** The Redis client: [None] when there is no client or it is not open. *)
Definition redis := option (gmap string cache_entry).

(** [CACHE_KEYS] *)
Definition AUCTION_DETAILS (id : Z) : string := "auction:details:" +:+ pretty id.
Definition AUCTION_FEED (page : Z) : string := "auction:feed:" +:+ pretty page.
Definition AUCTION_BIDS (id : Z) : string := "auction:bids:" +:+ pretty id.

(** [cache.get]: nothing without an open client, nothing for a key that
    is absent or has expired. *)
Definition cache_get (now : Z) (key : string) (c : redis) : option cached :=
  match c with
  | Some m =>
      match m !! key with
      | Some e => if decide (now < ce_expires e) then Some (ce_value e) else None
      | None => None
      end
  | None => None
  end.

(** [cache.set key value expireInSeconds] *)
Definition cache_set (now : Z) (key : string) (v : cached) (expireInSeconds : Z)
    (c : redis) : redis :=
  match c with
  | Some m =>
      Some (<[key := {| ce_value := v; ce_expires := now + expireInSeconds * 1000 |}]> m)
  | None => None
  end.

(** [cache.del] *)
Definition cache_del (key : string) (c : redis) : redis :=
  match c with
  | Some m => Some (delete key m)
  | None => None
  end.

(** ** [POST /api/bids] with its cache invalidation *)

(** After the commit of an accepted bid or a buy-now purchase the handler
    deletes the auction's details entry and page 1 of the feed. *)
Definition post_bid (now : Z) (r : request) (sc : store * redis)
    : response * list event * (store * redis) :=
  let '(resp, evs, s') := place_bid now r sc.1 in
  (resp, evs,
   (s', if rejected resp then sc.2
        else cache_del (AUCTION_FEED 1) (cache_del (AUCTION_DETAILS (auctionId r)) sc.2))).

Definition run_posts (sc : store * redis) (posts : list (Z * request)) : store * redis :=
  foldl (fun sc p => (post_bid p.1 p.2 sc).2) sc posts.

(** ** [GET /api/bids/auction/:auctionId] *)

(** [FROM bids b JOIN users u ON b.bidder_id = u.id WHERE b.auction_id = $1] *)
Definition bids_with_bidders (db : database) (id : Z) : list (bid * user) :=
  omap (fun b => match db_users db !! bidder_id b with
                 | Some u => Some (b, u)
                 | None => None
                 end)
       (filter (fun b => auction_id b = id) (bids (db_store db))).

(** [ORDER BY b.created_at DESC]: a row comes before the rows that were
    not created after it. *)
Definition not_older (x y : bid * user) : Prop := created_at y.1 <= created_at x.1.

#[global] Instance not_older_dec x y : Decision (not_older x y).
Proof. unfold not_older. apply _. Defined.

Definition newest_first (l : list (bid * user)) : list (bid * user) :=
  merge_sort not_older l.

Definition public_row (bu : bid * user) : public_bid :=
  {| pub_id := bid_id bu.1; pub_amount := amount bu.1;
     pub_isWinning := is_winning bu.1; pub_isAutoBid := is_auto_bid bu.1;
     pub_createdAt := created_at bu.1;
     pub_bidder_username := username bu.2;
     pub_bidder_reputation := reputation_score bu.2 |}.

(** The query with its [LIMIT 50], mapped to the response rows. *)
Definition query_auction_bids (db : database) (id : Z) : list public_bid :=
  public_row <$> take 50 (newest_first (bids_with_bidders db id)).

Inductive bids_response :=
  | InvalidAuctionId                 (* 400 'Invalid auction ID' *)
  | BidsJson (body : cached).        (* 200 *)

(** The handler; [param] is [parseInt(req.params.auctionId)], [None] for
    [NaN]. *)
Definition get_auction_bids (now : Z) (param : option Z) (db : database) (c : redis)
    : bids_response * redis :=
  match param with
  | None => (InvalidAuctionId, c)
  | Some id =>
      match cache_get now (AUCTION_BIDS id) c with
      | Some cachedBids => (BidsJson cachedBids, c)
      | None =>
          let body := BidsBody (query_auction_bids db id) in
          (BidsJson body, cache_set now (AUCTION_BIDS id) body 30 c)
      end
  end.

(** ** [GET /api/bids/auction/:auctionId/history] *)






(** ** [GET /api/bids/user/my-bids] *)

(** [req.query.status]: ['active'], ['won'], ['lost'], or anything else
    (no filter). *)
Inductive my_bids_status := StatusActive | StatusWon | StatusLost | StatusAny.

#[global] Instance my_bids_status_eq_dec : EqDecision my_bids_status.
Proof. solve_decision. Defined.

(** A row of the answer: the bid with its auction and the auction's
    seller. *)
Record my_bid := {
  mb_bid : bid;
  mb_auction : auction;
  mb_seller : user
}.


(** The condition appended to the [WHERE] clause. *)
Definition my_bids_filter (now uid : Z) (st : my_bids_status) (a : auction) : Prop :=
  match st with
  | StatusActive => status a = Active /\ now < end_time a
  | StatusWon => (status a = Sold \/ status a = Ended) /\ winner_id a = Some uid
  | StatusLost => (status a = Sold \/ status a = Ended) /\ winner_id a <> Some uid
  | StatusAny => True
  end.

#[global] Instance my_bids_filter_dec now uid st a : Decision (my_bids_filter now uid st a).
Proof. destruct st; cbn; apply _. Defined.


(** [ORDER BY b.auction_id, b.created_at DESC] *)
Definition by_auction_newest (x y : my_bid) : Prop :=
  auction_id (mb_bid x) < auction_id (mb_bid y) \/
  (auction_id (mb_bid x) = auction_id (mb_bid y) /\
   created_at (mb_bid y) <= created_at (mb_bid x)).

#[global] Instance by_auction_newest_dec x y : Decision (by_auction_newest x y).
Proof. unfold by_auction_newest. apply _. Defined.






(** ** [middleware/auth.js] *)

(** What a middleware does with a request. *)
Inductive role_check :=
  | RoleNext                                       (* next() *)
  | RoleAuthRequired                               (* 401 'Authentication required' *)
  | RoleInsufficient (required : list user_role) (current : user_role).  (* 403 *)

(** [requireRole(roles)]; [req_user] is [req.user]. *)
Definition requireRole (roles : list user_role) (req_user : option user) : role_check :=
  match req_user with
  | None => RoleAuthRequired
  | Some u =>
      if decide (role u ∈ roles) then RoleNext else RoleInsufficient roles (role u)
  end.

Definition requireModerator := requireRole [admin; moderator].
Definition requireAdmin := requireRole [admin].
Definition requireSeller := requireRole [seller; admin; moderator].

(** The key of [userRateLimit]: [req.user?.id || req.ip]. *)
Definition rate_key (uid : option Z) (ip : string) : Z + string :=
  match uid with
  | Some n => if decide (n = 0) then inr ip else inl n
  | None => inr ip
  end.

Inductive rate_check :=
  | RateNext                                       (* next() *)
  | RateTooMany (retryAfter : option Z).           (* 429; [None] for [NaN] *)

(** [Math.ceil(x / 1000)] *)
Definition ceil_seconds (x : Z) : Z := - ((- x) / 1000).

(** One call of the middleware that [userRateLimit(maxRequests, windowMs)]
    returns; [requests] is its [Map] from key to request times. *)
Definition userRateLimit (maxRequests windowMs : Z) (now : Z) (k : Z + string)
    (requests : gmap (Z + string) (list Z))
    : rate_check * gmap (Z + string) (list Z) :=
  let windowStart := now - windowMs in
  let requests1 :=
    match requests !! k with
    | Some l => <[k := filter (fun time => windowStart < time) l]> requests
    | None => requests
    end in
  let userRequests := default [] (requests1 !! k) in
  if decide (maxRequests <= Z.of_nat (length userRequests)) then
    (RateTooMany ((fun t0 => ceil_seconds (t0 + windowMs - now)) <$> head userRequests),
     requests1)
  else (RateNext, <[k := userRequests ++ [now]]> requests1).

(** A sequence of calls, each with its time and key, and the answers. *)
Fixpoint rate_run (maxRequests windowMs : Z) (calls : list (Z * (Z + string)))
    (requests : gmap (Z + string) (list Z))
    : list rate_check * gmap (Z + string) (list Z) :=
  match calls with
  | [] => ([], requests)
  | (now, k) :: calls' =>
      let '(r, requests') := userRateLimit maxRequests windowMs now k requests in
      let '(rs, final) := rate_run maxRequests windowMs calls' requests' in
      (r :: rs, final)
  end.

(** The times at which key [k] was let through, given the calls and their
    answers. *)
Fixpoint admitted_times (k : Z + string) (calls : list (Z * (Z + string)))
    (answers : list rate_check) : list Z :=
  match calls, answers with
  | (now, k') :: calls', r :: answers' =>
      match r with
      | RateNext => if decide (k' = k) then now :: admitted_times k calls' answers'
                    else admitted_times k calls' answers'
      | RateTooMany _ => admitted_times k calls' answers'
      end
  | _, _ => []
  end.

(** The call times do not go back. *)
Fixpoint clock_from (t : Z) (calls : list (Z * (Z + string))) : Prop :=
  match calls with
  | [] => True
  | (now, _) :: calls' => t <= now /\ clock_from now calls'
  end.

(** ** [authenticateToken] and the whole route [POST /api/bids] *)

(** [s.split(' ')]: the pieces between the spaces, empty pieces kept. *)
Fixpoint split_space (s : string) : list string :=
  match s with
  | EmptyString => [EmptyString]
  | String c s' =>
      if decide (c = " "%char) then EmptyString :: split_space s'
      else match split_space s' with
           | w :: ws => String c w :: ws
           | [] => [String c EmptyString]
           end
  end.

Fixpoint has_space (s : string) : bool :=
  match s with
  | EmptyString => false
  | String c s' => if decide (c = " "%char) then true else has_space s'
  end.

(** [authHeader && authHeader.split(' ')[1]], with the test [!token]: the
    token when there is one and it is not empty. *)
Definition bearer_token (authHeader : option string) : option string :=
  match authHeader with
  | Some h =>
      match split_space h !! 1%nat with
      | Some tok => if decide (tok = EmptyString) then None else Some tok
      | None => None
      end
  | None => None
  end.

(** What [jwt.verify] yields: the [userId] of the payload, or the error it
    throws. *)
Inductive jwt_outcome :=
  | JwtDecoded (userId : Z)
  | JsonWebTokenError
  | TokenExpiredError
  | JwtOtherError.

Inductive auth_outcome :=
  | AuthNext (uid : Z) (u : user)     (* req.user = user; next() *)
  | AccessTokenRequired               (* 401 *)
  | UserNotFound                      (* 401 *)
  | AccountDeactivated                (* 401 *)
  | InvalidToken                      (* 403 *)
  | TokenExpired                      (* 403 *)
  | AuthenticationError.              (* 500 *)

Definition authenticateToken (verify : string -> jwt_outcome)
    (authHeader : option string) (users : gmap Z user) : auth_outcome :=
  match bearer_token authHeader with
  | None => AccessTokenRequired
  | Some token =>
      match verify token with
      | JwtDecoded userId =>
          match users !! userId with
          | None => UserNotFound
          | Some u => if user_is_active u then AuthNext userId u else AccountDeactivated
          end
      | JsonWebTokenError => InvalidToken
      | TokenExpiredError => TokenExpired
      | JwtOtherError => AuthenticationError
      end
  end.

(** [req.body] of [POST /api/bids]. *)
Record bid_body := {
  body_auctionId : Z;
  body_amount : Z;
  body_maxBid : option Z
}.

Inductive route_answer :=
  | NotAuthenticated (why : auth_outcome)
  | Answered (resp : response) (evs : list event).

(** The route: [authenticateToken], then the handler with
    [bidderId = req.user.id]. *)
Definition post_bids_route (verify : string -> jwt_outcome)
    (authHeader : option string) (users : gmap Z user) (now : Z) (body : bid_body)
    (sc : store * redis) : route_answer * (store * redis) :=
  match authenticateToken verify authHeader users with
  | AuthNext uid _ =>
      let r := {| auctionId := body_auctionId body; bidAmount := body_amount body;
                  maxBid := body_maxBid body; bidderId := uid |} in
      let '(resp, evs, sc') := post_bid now r sc in
      (Answered resp evs, sc')
  | why => (NotAuthenticated why, sc)
  end.

(** ** The reconnection strategy of [config/redis.js] *)

(** The fields of [options] that [retry_strategy] reads; [retry_error_code]
    is [options.error.code], when there is an error with a code. *)
Record retry_options := {
  retry_error_code : option string;
  total_retry_time : Z;
  attempt : Z
}.

Inductive retry_decision :=
  | RetryError (message : string)     (* an [Error] is returned *)
  | RetryStop                         (* [undefined] *)
  | RetryAfter (ms : Z).

Definition retry_strategy (options : retry_options) : retry_decision :=
  if decide (retry_error_code options = Some "ECONNREFUSED") then
    RetryError "Redis server connection refused"
  else if decide (1000 * 60 * 60 < total_retry_time options) then
    RetryError "Retry time exhausted"
  else if decide (10 < attempt options) then RetryStop
  else RetryAfter (Z.min (attempt options * 100) 3000).

(** ** The auction rooms of [sockets/socketHandler.js] *)

(** A viewer as [auctionRooms] knows it: [socket.userId || socket.id]. *)
Definition viewer_key (userId : option Z) (socketId : string) : Z + string :=
  match userId with
  | Some n => if decide (n = 0) then inr socketId else inl n
  | None => inr socketId
  end.

(** What the handlers send to a room. *)
Inductive room_event :=
  | auction_joined (auctionId : Z)                      (* to the socket itself *)
  | viewer_joined (auctionId : Z) (viewerCount : nat)   (* to the others in the room *)
  | viewer_left (auctionId : Z) (viewerCount : nat).

(** [socket.on('join_auction', ...)]; [rooms] is [auctionRooms]. *)
Definition join_auction (id : Z) (v : Z + string)
    (rooms : gmap Z (gset (Z + string)))
    : list room_event * gmap Z (gset (Z + string)) :=
  let viewers := {[v]} ∪ default ∅ (rooms !! id) in
  ([auction_joined id; viewer_joined id (size viewers)], <[id := viewers]> rooms).

(** [socket.on('leave_auction', ...)] *)
Definition leave_auction (id : Z) (v : Z + string)
    (rooms : gmap Z (gset (Z + string)))
    : list room_event * gmap Z (gset (Z + string)) :=
  match rooms !! id with
  | Some viewers =>
      let viewers' := viewers ∖ {[v]} in
      if decide (size viewers' = 0%nat) then ([], delete id rooms)
      else ([viewer_left id (size viewers')], <[id := viewers']> rooms)
  | None => ([], rooms)
  end.

(** What [socket.on('disconnect', ...)] does to one room. *)
Definition disconnect_room (v : Z + string) (viewers : gset (Z + string))
    : option (gset (Z + string)) :=
  if decide (v ∈ viewers) then
    if decide (size (viewers ∖ {[v]}) = 0%nat) then None
    else Some (viewers ∖ {[v]})
  else Some viewers.

(** [socket.on('disconnect', ...)]: the rooms afterwards, and the count
    announced to each room the viewer was in. *)
Definition disconnect (v : Z + string) (rooms : gmap Z (gset (Z + string)))
    : gmap Z nat * gmap Z (gset (Z + string)) :=
  ((fun viewers => size (viewers ∖ {[v]})) <$>
     filter (fun iv : Z * gset (Z + string) => v ∈ iv.2) rooms,
   omap (disconnect_room v) rooms).

Inductive room_op :=
  | Join (id : Z) (v : Z + string)
  | Leave (id : Z) (v : Z + string)
  | Disconnect (v : Z + string).

Definition room_step (rooms : gmap Z (gset (Z + string))) (o : room_op)
    : gmap Z (gset (Z + string)) :=
  match o with
  | Join id v => (join_auction id v rooms).2
  | Leave id v => (leave_auction id v rooms).2
  | Disconnect v => (disconnect v rooms).2
  end.

(** The viewers tracked for an auction. *)
Definition viewers_of (rooms : gmap Z (gset (Z + string))) (id : Z) : gset (Z + string) :=
  default ∅ (rooms !! id).

(** ** [POST /api/auctions]: creating a listing *)

(** The fields of the form that the validators and the handler read;
    [form_files] is [req.files.length] after the upload middleware. *)
Record auction_form := {
  form_title : string;
  form_description : string;
  form_categoryId : Z;
  form_condition : string;
  form_startingPrice : Z;
  form_reservePrice : option Z;
  form_buyNowPrice : option Z;
  form_shippingCost : option Z;
  form_durationHours : Z;
  form_files : nat
}.

Definition conditions : list string := ["new"; "like_new"; "good"; "fair"; "poor"].

Definition optional_at_least (lo : Z) (x : option Z) : bool :=
  match x with Some v => lo <=? v | None => true end.

(** [x && parseFloat(x) < parseFloat(startingPrice)] *)
Definition given_below (x : option Z) (start : Z) : bool :=
  match x with
  | Some p => double_lt (parseFloat_cents p) (parseFloat_cents start)
  | None => false
  end.

(** The express-validator chain of the route; the lengths are counted in
    characters, the texts of the model being ASCII. *)
Definition valid_form (f : auction_form) : bool :=
  (5 <=? String.length (form_title f))%nat &&
  (String.length (form_title f) <=? 200)%nat &&
  (20 <=? String.length (form_description f))%nat &&
  (String.length (form_description f) <=? 2000)%nat &&
  bool_decide (form_condition f ∈ conditions) &&
  (1 <=? form_startingPrice f) &&
  optional_at_least 1 (form_reservePrice f) &&
  optional_at_least 1 (form_buyNowPrice f) &&
  optional_at_least 0 (form_shippingCost f) &&
  (1 <=? form_durationHours f) && (form_durationHours f <=? 168).

Inductive create_response :=
  | CreateAuthRequired                 (* 401, from [requireSeller] *)
  | CreateForbidden                    (* 403 'Insufficient permissions' *)
  | CreateValidationFailed             (* 400 *)
  | CreateImageRequired                (* 400 'At least one image is required' *)
  | CreateReserveTooLow                (* 400 *)
  | CreateBuyNowTooLow                 (* 400 *)
  | CreateInvalidCategory              (* 400 *)
  | CreateFailed                       (* 500 'Failed to create auction' *)
  | Created (id : Z) (a : auction).    (* 201 *)

(** A value for a [DECIMAL(10,2)] column that may be null. *)
Definition numeric_or_null (x : option Z) : option (option decimal) :=
  match x with
  | Some z => Some <$> numeric z
  | None => Some None
  end.

(** The row the [INSERT] produces, in the columns of [auction]; the other
    columns take their defaults.  [None] when a column refuses its
    value. *)
Definition new_listing (now uid : Z) (f : auction_form) : option auction :=
  start ← numeric (form_startingPrice f);
  reserve ← numeric_or_null (form_reservePrice f);
  buyNow ← numeric_or_null (form_buyNowPrice f);
  _ ← numeric (default 0 (form_shippingCost f));
  Some {| seller_id := uid; col_starting_price := start;
          col_current_price := start;
          col_reserve_price := reserve;
          col_buy_now_price := buyNow;
          status := Active;
          end_time := now + form_durationHours f * 60 * 60 * 1000;
          bid_count := 0; winner_id := None |}.

(** The route after [authenticateToken]: [requireSeller], the validators,
    the handler.  [req_user] is [req.user] with its id; [categories] maps a
    category id to its [is_active]; [new_id] is the next value of the key's
    sequence. *)
Definition create_auction (now : Z) (req_user : option (Z * user))
    (f : auction_form) (categories : gmap Z bool) (new_id : Z) (s : store)
    : create_response * store :=
  match req_user, requireSeller (snd <$> req_user) with
  | Some (uid, _), RoleNext =>
      if negb (valid_form f) then (CreateValidationFailed, s)
      else if decide (form_files f = 0%nat) then (CreateImageRequired, s)
      else if given_below (form_reservePrice f) (form_startingPrice f)
      then (CreateReserveTooLow, s)
      else if given_below (form_buyNowPrice f) (form_startingPrice f)
      then (CreateBuyNowTooLow, s)
      else if decide (categories !! form_categoryId f = Some true) then
        match new_listing now uid f with
        | Some a =>
            (Created new_id a,
             {| auctions := <[new_id := a]> (auctions s); bids := bids s |})
        | None => (CreateFailed, s)
        end
      else (CreateInvalidCategory, s)
  | _, RoleInsufficient _ _ => (CreateForbidden, s)
  | _, _ => (CreateAuthRequired, s)
  end.

(** The route with its cache invalidation: a created listing deletes page 1
    of the feed. *)
Definition post_auction (now : Z) (req_user : option (Z * user))
    (f : auction_form) (categories : gmap Z bool) (new_id : Z)
    (sc : store * redis) : create_response * (store * redis) :=
  let '(resp, s') := create_auction now req_user f categories new_id sc.1 in
  (resp, (s', match resp with
              | Created _ _ => cache_del (AUCTION_FEED 1) sc.2
              | _ => sc.2
              end)).

(** A form and a seller for the examples. *)
Definition gpu_form : auction_form :=
  {| form_title := "RTX 3080 graphics card";
     form_description := "Used for a year, never overclocked, original box.";
     form_categoryId := 2; form_condition := "good";
     form_startingPrice := 20000; form_reservePrice := Some 25000;
     form_buyNowPrice := Some 20000; form_shippingCost := None;
     form_durationHours := 24; form_files := 3 |}.

Definition a_seller : Z * user :=
  (5, {| username := "ana"; email := "ana@example.org"; role := seller;
         user_is_active := true; reputation_score := 0 |}).

Definition no_tables : store := {| auctions := ∅; bids := [] |}.

(** ** Scenarios with users *)

Definition ana : user :=
  {| username := "ana"; email := "ana@example.org"; role := seller;
     user_is_active := true; reputation_score := 12 |}.

Definition bo : user :=
  {| username := "bo"; email := "bo@example.org"; role := buyer;
     user_is_active := true; reputation_score := 3 |}.

Definition cy : user :=
  {| username := "cy"; email := "cy@example.org"; role := buyer;
     user_is_active := true; reputation_score := 0 |}.

Definition people : gmap Z user := {[ 1 := ana; 2 := bo; 3 := cy ]}.

(** Auction 7 after the opening bid of user 2. *)
Definition opening_db : database :=
  {| db_store := after_opening; db_users := people |}.

(** User 3 then bids 13.00. *)
Definition raise_of_3 : Z * request := (5000, bid_on7 3 1300 None).

Definition raised_db : database :=
  {| db_store := (place_bid 5000 (bid_on7 3 1300 None) after_opening).2;
     db_users := people |}.

(** The token ["abc"] is user 2's; nothing else verifies. *)
Definition verify_abc (token : string) : jwt_outcome :=
  if decide (token = "abc") then JwtDecoded 2 else JsonWebTokenError.

(** Three calls of user 5 within a fifth of a second. *)
Definition burst : list (Z * (Z + string)) := [(0, inl 5); (100, inl 5); (200, inl 5)].

(** Two viewers join the room of auction 7 and the first leaves. *)
Definition visits : list room_op := [Join 7 (inl 2); Join 7 (inl 3); Leave 7 (inl 2)].

(** The listing made from [gpu_form] by seller 5 at time 1000, as row 1 of
    empty tables. *)
Definition gpu_listing : auction :=
  {| seller_id := 5; col_starting_price := dec 20000;
     col_current_price := dec 20000; col_reserve_price := Some (dec 25000);
     col_buy_now_price := Some (dec 20000); status := Active;
     end_time := 1000 + 24 * 60 * 60 * 1000; bid_count := 0;
     winner_id := None |}.

Definition gpu_shop : store :=
  (create_auction 1000 (Some a_seller) gpu_form {[ 2 := true ]} 1 no_tables).2.

Definition bid_on_gpu (amt : Z) : request :=
  {| auctionId := 1; bidAmount := amt; maxBid := None; bidderId := 9 |}.

(** ** The scheduler's jobs: [start], [stop], [getJobStatus] *)

(** The seven jobs of [start], in the order they are scheduled: the name
    under which [this.jobs] keeps the job, and its cron expression. *)
Definition job_table : list (string * string) :=
  [("endAuctions", "* * * * *");
   ("endingReminders", "*/15 * * * *");
   ("watchlistDigest", "0 9 * * *");
   ("cleanupNotifications", "0 2 * * *");
   ("cleanupSessions", "0 3 * * *");
   ("updateStats", "0 * * * *");
   ("proxyBids", "*/30 * * * * *")].

(** The [AuctionScheduler] object together with the cron tasks that exist
    in the process.  A task is its expression and whether it is started;
    [this.jobs] refers to tasks by their position in [cron_tasks], so a
    task that [this.jobs] no longer mentions is still there, and still
    fires if it was left started. *)
Record scheduler := {
  sched_jobs : gmap string nat;
  cron_tasks : list (string * bool);
  isRunning : bool
}.

(** [constructor()] *)
Definition new_scheduler : scheduler :=
  {| sched_jobs := ∅; cron_tasks := []; isRunning := false |}.

(** [this.jobs.set(name, cron.schedule(expression, ..., { scheduled: false }))] *)
Definition schedule_job (st : gmap string nat * list (string * bool))
    (job : string * string) : gmap string nat * list (string * bool) :=
  (<[job.1 := length st.2]> st.1, st.2 ++ [(job.2, false)]).

(** [job.start()] and [job.stop()] on the task at position [i]. *)
Definition set_started (b : bool) (tasks : list (string * bool)) (i : nat)
    : list (string * bool) :=
  alter (fun t => (t.1, b)) i tasks.

(** [this.jobs.forEach(job => job.start())], and the same with [stop]. *)
Definition for_each_job (b : bool) (jobs : gmap string nat)
    (tasks : list (string * bool)) : list (string * bool) :=
  foldl (set_started b) tasks (snd <$> map_to_list jobs).

Definition start (s : scheduler) : scheduler :=
  if isRunning s then s
  else
    let st := foldl schedule_job (sched_jobs s, cron_tasks s) job_table in
    {| sched_jobs := st.1; cron_tasks := for_each_job true st.1 st.2;
       isRunning := true |}.

Definition stop (s : scheduler) : scheduler :=
  if negb (isRunning s) then s
  else
    {| sched_jobs := ∅;
       cron_tasks := for_each_job false (sched_jobs s) (cron_tasks s);
       isRunning := false |}.

(** [getJobStatus()]: [isRunning], [totalJobs], and per job whether it is
    started. *)
Definition getJobStatus (s : scheduler) : bool * nat * gmap string bool :=
  (isRunning s, size (sched_jobs s),
   omap (fun i => snd <$> cron_tasks s !! i) (sched_jobs s)).

Inductive scheduler_call := Start | Stop.

Definition scheduler_step (s : scheduler) (c : scheduler_call) : scheduler :=
  match c with
  | Start => start s
  | Stop => stop s
  end.

(** The number of cron tasks that are started. *)
Definition started_tasks (s : scheduler) : nat :=
  length (filter (fun t : string * bool => t.2 = true) (cron_tasks s)).

(** The map [start] builds when the first new task has position [n]. *)
Definition jobs_from (n : nat) : gmap string nat :=
  <["proxyBids" := (n + 6)%nat]>
  (<["updateStats" := (n + 5)%nat]>
  (<["cleanupSessions" := (n + 4)%nat]>
  (<["cleanupNotifications" := (n + 3)%nat]>
  (<["watchlistDigest" := (n + 2)%nat]>
  (<["endingReminders" := (n + 1)%nat]>
  (<["endAuctions" := n]> ∅)))))).

(** What holds of the scheduler between calls. *)
Definition scheduler_inv (s : scheduler) : Prop :=
  if isRunning s then
    exists old,
      Forall (fun t : string * bool => t.2 = false) old /\
      cron_tasks s = old ++ ((fun job : string * string => (job.2, true)) <$> job_table) /\
      sched_jobs s = jobs_from (length old)
  else
    sched_jobs s = ∅ /\ Forall (fun t : string * bool => t.2 = false) (cron_tasks s).

(** ** [optionalAuth] *)

(** The middleware always calls [next()]; the result is [req.user], with
    its id, or [None] for [null].  Whatever [jwt.verify] throws is
    caught. *)
Definition optionalAuth (verify : string -> jwt_outcome)
    (authHeader : option string) (users : gmap Z user) : option (Z * user) :=
  match bearer_token authHeader with
  | None => None
  | Some token =>
      match verify token with
      | JwtDecoded userId =>
          match users !! userId with
          | Some u => if user_is_active u then Some (userId, u) else None
          | None => None
          end
      | _ => None
      end
  end.

(** * Properties *)


(** ** Rounding *)

Lemma nearest_even_close n D :
  0 < D -> 2 * Z.abs (nearest_even n D * D - n) <= D.
Proof.
  intros HD. unfold nearest_even.
  pose proof (Z.div_mod n D ltac:(lia)) as Hdm.
  pose proof (Z.mod_pos_bound n D HD) as Hr.
  destruct (Z.ltb_spec (2 * (n mod D)) D); [nia|].
  destruct (Z.ltb_spec D (2 * (n mod D))); [nia|].
  destruct (Z.even (n / D)); nia.
Qed.

Lemma spacing_pos n d : 0 < spacing n d.
Proof. unfold spacing. apply Z.pow_pos_nonneg; lia. Qed.

(** The spacing is one unit, or at most [2^-52] of the number. *)
Lemma spacing_small n d :
  0 < d -> spacing n d = 1 \/ d * (spacing n d * 2 ^ 52) <= Z.abs n.
Proof.
  intros Hd. unfold spacing.
  destruct (Z.max_spec 0 (Z.log2 (Z.abs n / d) - 52)) as [[Hlt ->]|[Hge ->]].
  - right. rewrite <- Z.pow_add_r by lia.
    replace (Z.log2 (Z.abs n / d) - 52 + 52) with (Z.log2 (Z.abs n / d)) by lia.
    assert (0 < Z.abs n / d) as Hq.
    { destruct (Z.le_gt_cases (Z.abs n / d) 0) as [Hle|]; [|done].
      rewrite (Z.log2_nonpos _ Hle) in Hlt. lia. }
    pose proof (Z.log2_spec _ Hq) as [Hlo _].
    pose proof (Z.mul_div_le (Z.abs n) d Hd). nia.
  - by left.
Qed.

Lemma spacing_bound n d k :
  0 < d -> 53 <= k -> Z.abs n < d * 2 ^ k -> spacing n d <= 2 ^ (k - 53).
Proof.
  intros Hd Hk Hn. unfold spacing. apply Z.pow_le_mono_r; [lia|].
  assert (Z.abs n / d < 2 ^ k) as Hq.
  { apply Z.div_lt_upper_bound; lia. }
  destruct (Z.le_gt_cases (Z.abs n / d) 0) as [Hle|Hpos].
  - rewrite (Z.log2_nonpos _ Hle). lia.
  - apply Z.log2_lt_pow2 in Hq; lia.
Qed.

(** Below [2^k] the rounding error is at most [2^(k - 54)]. *)
Lemma round_ratio_close n d k :
  0 < d -> 53 <= k <= 2097 -> Z.abs n < d * 2 ^ k ->
  exists m, round_ratio n d = finite m /\
            2 * Z.abs (m * d - n) <= d * 2 ^ (k - 53).
Proof.
  intros Hd Hk Hn. unfold round_ratio.
  pose proof (spacing_pos n d) as Hsp.
  pose proof (spacing_bound n d k Hd ltac:(lia) Hn) as Hsb.
  pose proof (nearest_even_close n (d * spacing n d) ltac:(nia)) as Hne.
  set (m := nearest_even n (d * spacing n d) * spacing n d) in *.
  assert (Hpow : 2 ^ k = 2 ^ 53 * 2 ^ (k - 53)).
  { rewrite <- Z.pow_add_r by lia. f_equal. lia. }
  assert (Hk1 : 2 ^ (k + 1) = 2 * 2 ^ k).
  { rewrite Z.pow_add_r by lia. change (2 ^ 1) with 2. ring. }
  assert (Hbig : 2 ^ (k + 1) <= 2 ^ 2098) by (apply Z.pow_le_mono_r; lia).
  assert (He : 0 < 2 ^ (k - 53)) by (apply Z.pow_pos_nonneg; lia).
  assert (H53 : 2 <= 2 ^ 53) by (change 2 with (2 ^ 1) at 1; apply Z.pow_le_mono_r; lia).
  remember (2 ^ 2098) as top eqn:E1. remember (2 ^ (k + 1)) as pk1 eqn:E2.
  remember (2 ^ 53) as p53 eqn:E3. remember (2 ^ k) as pk eqn:E4.
  remember (2 ^ (k - 53)) as e eqn:E5. remember (spacing n d) as sp eqn:E6.
  clear E1 E2 E3 E4 E5 E6.
  assert (Hm : 2 * Z.abs (m * d - n) <= d * e).
  { unfold m. replace (nearest_even n (d * sp) * sp * d)
      with (nearest_even n (d * sp) * (d * sp)) by ring. nia. }
  assert (Hsmall : Z.abs m < top).
  { assert (Z.abs m * d < pk1 * d) by nia. nia. }
  destruct (Z.leb_spec top (Z.abs m)); [lia|].
  exists m. split; [reflexivity | exact Hm].
Qed.

(** A large ratio is not rounded below its half. *)
Lemma round_ratio_large n d :
  0 < d -> 2 * d <= n ->
  match round_ratio n d with
  | finite m => n <= 2 * (m * d)
  | infinity negative => negative = false
  end.
Proof.
  intros Hd Hn. unfold round_ratio.
  pose proof (spacing_pos n d) as Hsp.
  pose proof (spacing_small n d Hd) as Hss.
  pose proof (nearest_even_close n (d * spacing n d) ltac:(nia)) as Hne.
  assert (H52 : 2 <= 2 ^ 52) by (change 2 with (2 ^ 1) at 1; apply Z.pow_le_mono_r; lia).
  remember (2 ^ 2098) as top eqn:E1. remember (2 ^ 52) as p52 eqn:E2.
  remember (spacing n d) as sp eqn:E3. clear E1 E2 E3.
  set (m := nearest_even n (d * sp) * sp) in *.
  assert (Hm : n <= 2 * (m * d)).
  { unfold m. replace (nearest_even n (d * sp) * sp * d)
      with (nearest_even n (d * sp) * (d * sp)) by ring.
    rewrite (Z.abs_eq n) in Hss by lia. destruct Hss as [-> | Hss]; nia. }
  destruct (Z.leb_spec top (Z.abs m)); [|exact Hm].
  apply Z.ltb_ge. nia.
Qed.

(** ** Amounts as doubles *)

Lemma one_unit_slack : one_unit = 262144 * slack.
Proof. reflexivity. Qed.

Lemma slack_pos : 0 < slack.
Proof. reflexivity. Qed.

Lemma pow_1109 : 2 ^ 1109 = 34359738368 * one_unit.
Proof. reflexivity. Qed.

Lemma pow_1110 : 2 ^ 1110 = 68719476736 * one_unit.
Proof. reflexivity. Qed.

(** The double of an amount below [2^35] cents is within [2^-18] cents of
    it. *)
Lemma parseFloat_cents_close z :
  Z.abs z < 34359738368 ->
  exists A, parseFloat_cents z = finite A /\
            Z.abs (100 * A - z * one_unit) <= 100 * slack.
Proof.
  intros Hz. unfold parseFloat_cents.
  destruct (round_ratio_close (z * one_unit) 100 1109) as (A & -> & HA); [lia | lia | |].
  - rewrite pow_1109, Z.abs_mul. pose proof one_unit_slack. pose proof slack_pos.
    rewrite (Z.abs_eq one_unit) by lia. nia.
  - exists A. split; [done|]. change (2 ^ (1109 - 53)) with slack in HA. lia.
Qed.

(** The double of a large amount is large, or infinite. *)
Lemma parseFloat_cents_large z :
  200 <= z ->
  match parseFloat_cents z with
  | finite A => z * one_unit <= 200 * A
  | infinity negative => negative = false
  end.
Proof.
  intros Hz. unfold parseFloat_cents.
  pose proof one_unit_slack. pose proof slack_pos.
  pose proof (round_ratio_large (z * one_unit) 100 ltac:(lia) ltac:(nia)) as Hl.
  destruct (round_ratio (z * one_unit) 100); [lia | done].
Qed.

Lemma add_increment_close C :
  Z.abs C < 34359738368 * one_unit ->
  exists U, double_add (finite C) minBidIncrement_number = finite U /\
            Z.abs (U - (C + one_unit)) <= slack.
Proof.
  intros HC. cbn [double_add minBidIncrement_number].
  destruct (round_ratio_close (C + one_unit) 1 1110) as (U & -> & HU); [lia | lia | |].
  - rewrite pow_1110. pose proof one_unit_slack. pose proof slack_pos. lia.
  - exists U. split; [done|].
    replace (2 ^ (1110 - 53)) with (2 * slack) in HU by reflexivity. lia.
Qed.

(** An amount plus the increment, as the handler adds them, is within
    [2^-17] cents of the exact sum. *)
Lemma plus_increment_close z :
  Z.abs z < 17179869184 ->
  exists U, double_add (parseFloat_cents z) minBidIncrement_number = finite U /\
            Z.abs (100 * U - (z + 100) * one_unit) <= 200 * slack.
Proof.
  intros Hz. destruct (parseFloat_cents_close z) as (C & -> & HC); [lia|].
  pose proof one_unit_slack. pose proof slack_pos.
  destruct (add_increment_close C) as (U & -> & HU); [nia|].
  exists U. split; [done | lia].
Qed.

(** A double that is within [2^-17] cents of a whole number of cents
    rounds to it. *)
Lemma nearest_cent_close u z :
  Z.abs (100 * u - z * one_unit) <= 200 * slack ->
  nearest_cent (finite u) = Some z.
Proof.
  intros Hu. cbn [nearest_cent]. f_equal.
  pose proof one_unit_slack as HS. pose proof slack_pos as Hs.
  remember one_unit as S eqn:E1. remember slack as e eqn:E2. clear E1 E2. subst S.
  destruct (Z.lt_trichotomy z 0) as [Hz|[->|Hz]].
  - assert (u < 0) by nia. rewrite Z.sgn_neg, Z.abs_neq by lia.
    assert ((200 * - u + 262144 * e) / (2 * (262144 * e)) = - z) as ->; [|lia].
    symmetry. apply (Z.div_unique _ _ _ (200 * - u + 262144 * e - 2 * (262144 * e) * - z));
      nia.
  - destruct (Z.lt_trichotomy u 0) as [Hu0|[->|Hu0]].
    + rewrite Z.sgn_neg, Z.abs_neq by lia.
      rewrite Z.div_small; [lia | nia].
    + done.
    + rewrite Z.sgn_pos, Z.abs_eq by lia.
      rewrite Z.div_small; [lia | nia].
  - assert (0 < u) by nia. rewrite Z.sgn_pos, Z.abs_eq by lia.
    assert ((200 * u + 262144 * e) / (2 * (262144 * e)) = z) as ->; [|lia].
    symmetry. apply (Z.div_unique _ _ _ (200 * u + 262144 * e - 2 * (262144 * e) * z));
      nia.
Qed.

(** ** The comparisons of the handler, in cents *)

(** The minimum test refuses every amount below the price plus 1.00 ... *)
Lemma minimum_test_low c a :
  Z.abs c < 10000000000 -> 1 <= a -> a < c + 100 ->
  double_lt (parseFloat_cents a)
            (double_add (parseFloat_cents c) minBidIncrement_number) = true.
Proof.
  intros Hc Ha Hlow.
  destruct (plus_increment_close c) as (U & -> & HU); [lia|].
  destruct (parseFloat_cents_close a) as (A & -> & HA); [lia|].
  pose proof one_unit_slack. pose proof slack_pos.
  cbn. apply Z.ltb_lt. nia.
Qed.

(** ... and lets through every amount above it. *)
Lemma minimum_test_high c a :
  Z.abs c < 10000000000 -> c + 100 < a ->
  double_lt (parseFloat_cents a)
            (double_add (parseFloat_cents c) minBidIncrement_number) = false.
Proof.
  intros Hc Hhigh.
  destruct (plus_increment_close c) as (U & -> & HU); [lia|].
  pose proof one_unit_slack. pose proof slack_pos.
  destruct (Z.lt_ge_cases a 34359738368) as [Hsmall|Hbig].
  - destruct (parseFloat_cents_close a) as (A & -> & HA); [lia|].
    cbn. apply Z.ltb_ge. nia.
  - pose proof (parseFloat_cents_large a ltac:(lia)) as Hl.
    destruct (parseFloat_cents a) as [A|neg].
    + cbn. apply Z.ltb_ge. nia.
    + by subst neg.
Qed.

(** Two amounts compare as doubles the way their cents do, when one of
    them fits a column and the other is not far below zero. *)
Lemma parseFloat_cents_lt x y :
  (Z.abs x < 10000000000 /\ -10000000000 < y) \/
  (Z.abs y < 10000000000 /\ -10000000000 < x) ->
  double_lt (parseFloat_cents x) (parseFloat_cents y) = (x <? y).
Proof.
  intros Hxy. pose proof one_unit_slack. pose proof slack_pos.
  destruct (decide (x = y)) as [->|Hne].
  { rewrite Z.ltb_irrefl. destruct (parseFloat_cents y) as [u|[]]; cbn; [|done..].
    apply Z.ltb_irrefl. }
  destruct (Z.lt_ge_cases x 34359738368) as [Hx|Hx];
    destruct (Z.lt_ge_cases y 34359738368) as [Hy|Hy].
  - destruct (parseFloat_cents_close x) as (A & -> & HA); [lia|].
    destruct (parseFloat_cents_close y) as (B & -> & HB); [lia|].
    cbn. destruct (Z.ltb_spec x y); [apply Z.ltb_lt | apply Z.ltb_ge]; nia.
  - destruct (parseFloat_cents_close x) as (A & -> & HA); [lia|].
    pose proof (parseFloat_cents_large y ltac:(lia)) as Hl.
    rewrite (proj2 (Z.ltb_lt x y)) by lia.
    destruct (parseFloat_cents y) as [B|neg]; [|by subst neg].
    cbn. apply Z.ltb_lt. nia.
  - destruct (parseFloat_cents_close y) as (B & -> & HB); [lia|].
    pose proof (parseFloat_cents_large x ltac:(lia)) as Hl.
    rewrite (proj2 (Z.ltb_ge x y)) by lia.
    destruct (parseFloat_cents x) as [A|neg]; [|by subst neg].
    cbn. apply Z.ltb_ge. nia.
  - lia.
Qed.

Lemma parseFloat_cents_le x y :
  (Z.abs x < 10000000000 /\ -10000000000 < y) \/
  (Z.abs y < 10000000000 /\ -10000000000 < x) ->
  double_le (parseFloat_cents x) (parseFloat_cents y) = (x <=? y).
Proof.
  intros Hxy. unfold double_le. rewrite parseFloat_cents_lt by tauto.
  destruct (Z.ltb_spec y x), (Z.leb_spec x y); done || lia.
Qed.

(** ** What a column makes of the handler's numbers *)

Lemma decimal_eq (x y : decimal) : cents x = cents y -> x = y.
Proof.
  destruct x as [x Hx], y as [y Hy]. cbn. intros ->. f_equal.
  destruct (in_decimal_10_2 y); [by destruct Hx, Hy | done].
Qed.

Lemma cents_range (d : decimal) : Z.abs (cents d) < 10000000000.
Proof.
  destruct d as [z Hz]. cbn. unfold in_decimal_10_2 in Hz.
  apply Is_true_true, andb_true_iff in Hz as [H1 H2].
  apply Z.ltb_lt in H1, H2. lia.
Qed.

Lemma numeric_spec z :
  match numeric z with
  | Some d => cents d = z /\ in_decimal_10_2 z = true
  | None => in_decimal_10_2 z = false
  end.
Proof.
  unfold numeric.
  assert (forall H, cents (Decimal z H) = z) as Hk by done.
  revert Hk. generalize (Decimal z).
  destruct (in_decimal_10_2 z); intros k Hk; [by rewrite Hk | done].
Qed.

Lemma in_decimal_10_2_true z :
  in_decimal_10_2 z = true <-> Z.abs z < 10000000000.
Proof.
  unfold in_decimal_10_2. rewrite andb_true_iff, !Z.ltb_lt. lia.
Qed.

Lemma numeric_Some z :
  Z.abs z < 10000000000 -> exists d, numeric z = Some d /\ cents d = z.
Proof.
  intros Hz. pose proof (numeric_spec z) as Hs.
  destruct (numeric z) as [d|]; [exists d; tauto|].
  apply in_decimal_10_2_true in Hz. congruence.
Qed.

Lemma numeric_None z : 10000000000 <= Z.abs z -> numeric z = None.
Proof.
  intros Hz. pose proof (numeric_spec z) as Hs.
  destruct (numeric z) as [d|]; [|done].
  destruct Hs as [_ Hs]. apply in_decimal_10_2_true in Hs. lia.
Qed.

Lemma numeric_inv z d : numeric z = Some d -> cents d = z.
Proof.
  intros Hn. destruct (Z.lt_ge_cases (Z.abs z) 10000000000) as [Hz|Hz].
  - destruct (numeric_Some z Hz) as (d' & Hd & <-). congruence.
  - by rewrite numeric_None in Hn.
Qed.

Lemma numeric_cents (d : decimal) : numeric (cents d) = Some d.
Proof.
  destruct (numeric_Some (cents d) (cents_range d)) as (d' & -> & Hd).
  f_equal. by apply decimal_eq.
Qed.

Lemma dec_cents z : Z.abs z < 10000000000 -> cents (dec z) = z.
Proof. intros Hz. unfold dec. by destruct (numeric_Some z Hz) as (d & -> & <-). Qed.

(** The price of a first bid: the amount. *)
Lemma numeric_of_parseFloat z :
  -10000000000 < z -> numeric_of_double (parseFloat_cents z) = numeric z.
Proof.
  intros Hz. unfold numeric_of_double.
  pose proof one_unit_slack. pose proof slack_pos.
  destruct (Z.lt_ge_cases z 34359738368) as [Hsmall|Hbig].
  - destruct (parseFloat_cents_close z) as (A & -> & HA); [lia|].
    by rewrite (nearest_cent_close A z) by lia.
  - pose proof (parseFloat_cents_large z ltac:(lia)) as Hl.
    rewrite (numeric_None z) by lia.
    destruct (parseFloat_cents z) as [A|neg]; [|done].
    cbn. apply numeric_None.
    assert (0 < A) by nia. rewrite Z.sgn_pos, (Z.abs_eq A), Z.mul_1_l by lia.
    assert (10000000000 <= (200 * A + one_unit) / (2 * one_unit)).
    { apply Z.div_le_lower_bound; nia. }
    lia.
Qed.

(** The price when the standing maximum [H] absorbs a bid of maximum
    [M]: the smaller of [M + 1.00] and [H]. *)
Lemma numeric_of_absorbed M H :
  -10000000000 < M -> M <= H -> H < 10000000000 ->
  numeric_of_double
    (Math_min (double_add (parseFloat_cents M) minBidIncrement_number)
              (parseFloat_cents H))
  = numeric (Z.min (M + 100) H).
Proof.
  intros HM Hle HH. unfold numeric_of_double.
  pose proof one_unit_slack. pose proof slack_pos.
  destruct (plus_increment_close M) as (U & -> & HU); [lia|].
  destruct (parseFloat_cents_close H) as (B & -> & HB); [lia|].
  unfold Math_min. cbn [double_lt].
  destruct (Z.ltb_spec B U).
  - rewrite (nearest_cent_close B (Z.min (M + 100) H)); [done|].
    assert (H <= M + 100) by nia. rewrite Z.min_r by lia. lia.
  - rewrite (nearest_cent_close U (Z.min (M + 100) H)); [done|].
    assert (M + 100 <= H) by nia. rewrite Z.min_l by lia. lia.
Qed.

(** The price when a bid of maximum [M] beats the standing maximum [H]:
    the smaller of [H + 1.00] and [M]. *)
Lemma numeric_of_new_winner H M :
  Z.abs H < 10000000000 -> H < M ->
  numeric_of_double
    (Math_min (double_add (parseFloat_cents H) minBidIncrement_number)
              (parseFloat_cents M))
  = numeric (Z.min (H + 100) M).
Proof.
  intros HH Hlt. unfold numeric_of_double.
  pose proof one_unit_slack. pose proof slack_pos.
  destruct (plus_increment_close H) as (U & -> & HU); [lia|].
  unfold Math_min.
  destruct (Z.lt_ge_cases M 34359738368) as [Hsmall|Hbig].
  - destruct (parseFloat_cents_close M) as (B & -> & HB); [lia|].
    cbn [double_lt]. destruct (Z.ltb_spec B U).
    + rewrite (nearest_cent_close B (Z.min (H + 100) M)); [done|].
      assert (M <= H + 100) by nia. rewrite Z.min_r by lia. lia.
    + rewrite (nearest_cent_close U (Z.min (H + 100) M)); [done|].
      assert (H + 100 <= M) by nia. rewrite Z.min_l by lia. lia.
  - pose proof (parseFloat_cents_large M ltac:(lia)) as Hl.
    assert (double_lt (parseFloat_cents M) (finite U) = false) as ->.
    { destruct (parseFloat_cents M) as [B|neg]; [|by subst neg].
      cbn. apply Z.ltb_ge. nia. }
    rewrite (nearest_cent_close U (Z.min (H + 100) M)); [done|].
    rewrite Z.min_l by lia. lia.
Qed.

(** The amount that the message of the minimum-bid error prints. *)
Lemma nearest_cent_plus_increment z :
  Z.abs z < 10000000000 ->
  nearest_cent (double_add (parseFloat_cents z) minBidIncrement_number)
  = Some (z + 100).
Proof.
  intros Hz. destruct (plus_increment_close z) as (U & -> & HU); [lia|].
  by apply nearest_cent_close.
Qed.


(** ** Reading the tables *)

Lemma lookup_update_auction f id s a :
  auctions s !! id = Some a ->
  auctions (update_auction f id s) !! id = Some (f a).
Proof. intros Ha. cbn. by rewrite lookup_alter_eq, Ha. Qed.

Lemma lookup_update_auction_ne f id id' s :
  id <> id' ->
  auctions (update_auction f id s) !! id' = auctions s !! id'.
Proof. intros Hne. cbn. by rewrite lookup_alter_ne. Qed.

Lemma select_active_auction_Some now s id a :
  select_active_auction now s id = Some a <->
  auctions s !! id = Some a /\ status a = Active /\ now < end_time a.
Proof.
  unfold select_active_auction. destruct (auctions s !! id) as [a0|].
  - case_decide as Hc.
    + split; [intros [= <-]; tauto | by intros [[= ->] _]].
    + split; [done | intros [[= ->] Ha]; tauto].
  - split; [done | by intros [? _]].
Qed.

Lemma select_active_auction_inactive now s id a :
  auctions s !! id = Some a -> status a <> Active ->
  select_active_auction now s id = None.
Proof.
  intros Ha Hst. unfold select_active_auction. rewrite Ha.
  case_decide as Hc; [by destruct Hc | done].
Qed.

Lemma current_price_range a : Z.abs (current_price a) < 10000000000.
Proof. apply cents_range. Qed.

Lemma currentMaxBid_range c : Z.abs (currentMaxBid c) < 10000000000.
Proof.
  unfold currentMaxBid, max_bid, amount.
  destruct (col_max_bid c); cbn; apply cents_range.
Qed.

(** ** What the validators let through *)

Lemma valid_request_pos r :
  valid_request r = true -> 1 <= bidAmount r /\ 1 <= newMaxBid r.
Proof.
  unfold valid_request, newMaxBid. intros [Ha Hm]%andb_true_iff.
  apply Z.leb_le in Ha. split; [done|].
  destruct (maxBid r); cbn; [by apply Z.leb_le | done].
Qed.

(** ** The minimum-bid test, in cents *)

Lemma requiredMinBid_toFixed_eq a :
  requiredMinBid_toFixed a = current_price a + minBidIncrement.
Proof.
  unfold requiredMinBid_toFixed, requiredMinBid.
  by rewrite nearest_cent_plus_increment by apply current_price_range.
Qed.

Lemma below_required_minimum_low r a :
  1 <= bidAmount r -> bidAmount r < current_price a + minBidIncrement ->
  below_required_minimum r a = true.
Proof.
  intros Hpos Hlow. apply minimum_test_low; [apply current_price_range | done..].
Qed.

Lemma below_required_minimum_high r a :
  current_price a + minBidIncrement < bidAmount r ->
  below_required_minimum r a = false.
Proof. intros Hhigh. apply minimum_test_high; [apply current_price_range | done]. Qed.

(** A bid that passes the test is not below the price plus 1.00. *)
Lemma passed_minimum r a :
  1 <= bidAmount r -> below_required_minimum r a = false ->
  current_price a + minBidIncrement <= bidAmount r.
Proof.
  intros Hpos Hpass.
  destruct (Z.lt_ge_cases (bidAmount r) (current_price a + minBidIncrement)); [|done].
  by rewrite below_required_minimum_low in Hpass.
Qed.

Lemma admitted_amount_le now r s a :
  admitted now r s a -> current_price a + minBidIncrement <= bidAmount r.
Proof.
  intros [Hv _ _ Ham]. apply passed_minimum; [|done].
  by apply valid_request_pos in Hv as [? _].
Qed.

(** ** The buy-now test, in cents *)

Lemma buy_now_applies_Some r a p :
  buy_now_applies r a = Some p ->
  col_buy_now_price a = Some p.
Proof.
  unfold buy_now_applies. destruct (col_buy_now_price a) as [q|]; [|done].
  by destruct (double_le _ _); intros [= <-].
Qed.

Lemma buy_now_applies_cents r a :
  1 <= bidAmount r ->
  buy_now_applies r a =
    match col_buy_now_price a with
    | Some p => if decide (cents p <= bidAmount r) then Some p else None
    | None => None
    end.
Proof.
  intros Hpos. unfold buy_now_applies.
  destruct (col_buy_now_price a) as [p|]; [|done].
  rewrite parseFloat_cents_le by (left; split; [apply cents_range | lia]).
  destruct (Z.leb_spec (cents p) (bidAmount r)); case_decide; done || lia.
Qed.

(** ** Rejections leave the store alone *)

Lemma buy_now_not_rejected now r p s : rejected (buy_now now r p s).1.1 = false.
Proof. done. Qed.

Lemma normal_bid_cases now r a s :
  normal_bid now r a s = (ServerError, [], s) \/
  exists p w s1 amt mx,
    proxy_bidding r s = Some (p, w, s1) /\
    numeric (bidAmount r) = Some amt /\ numeric (newMaxBid r) = Some mx /\
    let s2 := anti_snipe now a (auctionId r) s1 in
    let newBid :=
      {| bid_id := next_bid_id s2; auction_id := auctionId r;
         bidder_id := bidderId r; col_amount := amt;
         col_max_bid := Some mx; is_winning := w;
         is_auto_bid := false; created_at := now |} in
    normal_bid now r a s =
      (BidPlaced newBid p (bid_count a + 1),
       [bid_placed
          {| ev_auctionId := auctionId r; ev_bidId := bid_id newBid;
             ev_bidderId := bidderId r; ev_amount := bidAmount r;
             ev_currentPrice := p; ev_isWinning := w;
             ev_bidCount := bid_count a + 1;
             ev_timeRemaining := Z.max 0 (end_time a - now) |}],
       insert_bid newBid s2).
Proof.
  unfold normal_bid.
  destruct (proxy_bidding r s) as [[[p w] s1]|]; [|by left].
  destruct (numeric (bidAmount r)) as [amt|]; [|by left].
  destruct (numeric (newMaxBid r)) as [mx|]; [|by left].
  right. by exists p, w, s1, amt, mx.
Qed.

Lemma normal_bid_rejected now r a s :
  rejected (normal_bid now r a s).1.1 = true ->
  normal_bid now r a s = (ServerError, [], s).
Proof.
  destruct (normal_bid_cases now r a s)
    as [->|(p & w & s1 & amt & mx & _ & _ & _ & ->)]; done.
Qed.

Lemma place_bid_rejected now r s :
  rejected (place_bid now r s).1.1 = true ->
  place_bid now r s = ((place_bid now r s).1.1, [], s).
Proof.
  unfold place_bid.
  destruct (valid_request r); cbn [negb]; [|done].
  destruct (select_active_auction now s (auctionId r)) as [a|]; [|done].
  case_decide; [done|]. destruct (below_required_minimum r a); [done|].
  destruct (buy_now_applies r a) as [p|].
  - by rewrite buy_now_not_rejected.
  - intros Hrej. by rewrite (normal_bid_rejected _ _ _ _ Hrej).
Qed.

Lemma place_bid_admitted now r s a :
  admitted now r s a ->
  place_bid now r s =
    match buy_now_applies r a with
    | Some price => buy_now now r price s
    | None => normal_bid now r a s
    end.
Proof.
  intros [Hv Hrow Hb Ham]. unfold place_bid. rewrite Hv, Hrow, Ham. cbn [negb].
  by case_decide.
Qed.

(** Either the request is turned away at one of the four checks, or it is
    admitted. *)
Lemma place_bid_cases now r s :
  (rejected (place_bid now r s).1.1 = true /\ (place_bid now r s).2 = s) \/
  exists a, admitted now r s a /\
            place_bid now r s =
              match buy_now_applies r a with
              | Some price => buy_now now r price s
              | None => normal_bid now r a s
              end.
Proof.
  unfold place_bid.
  destruct (valid_request r) eqn:Hv; cbn [negb]; [|by left].
  destruct (select_active_auction now s (auctionId r)) as [a|] eqn:Hsel; [|by left].
  case_decide; [by left|].
  destruct (below_required_minimum r a) eqn:Hlow; [by left|].
  right. exists a. split; [by split | done].
Qed.

(** ** The ordinary path, branch by branch *)

Lemma proxy_bidding_first r s :
  1 <= bidAmount r ->
  current_highest_bid s (auctionId r) = None ->
  proxy_bidding r s =
    price ← numeric (bidAmount r);
    Some (cents price, true,
          update_auction (set_price_count price) (auctionId r) s).
Proof.
  intros Hpos Hc. unfold proxy_bidding. rewrite Hc.
  by rewrite numeric_of_parseFloat by lia.
Qed.

Lemma proxy_bidding_absorbed r s c :
  1 <= newMaxBid r ->
  current_highest_bid s (auctionId r) = Some c ->
  newMaxBid r <= currentMaxBid c ->
  proxy_bidding r s =
    price ← numeric (Z.min (newMaxBid r + minBidIncrement) (currentMaxBid c));
    Some (cents price, false,
          update_auction (set_price price) (auctionId r) s).
Proof.
  intros Hpos Hc Hle. unfold proxy_bidding. rewrite Hc.
  pose proof (currentMaxBid_range c).
  rewrite parseFloat_cents_le by (right; split; lia).
  rewrite (proj2 (Z.leb_le _ _)) by done.
  by rewrite numeric_of_absorbed by lia.
Qed.

Lemma proxy_bidding_new_winner r s c :
  current_highest_bid s (auctionId r) = Some c ->
  currentMaxBid c < newMaxBid r ->
  proxy_bidding r s =
    price ← numeric (Z.min (currentMaxBid c + minBidIncrement) (newMaxBid r));
    Some (cents price, true,
          update_auction (set_price_count price) (auctionId r)
            {| auctions := auctions s;
               bids := clear_winning (auctionId r) <$> bids s |}).
Proof.
  intros Hc Hlt. unfold proxy_bidding. rewrite Hc.
  pose proof (currentMaxBid_range c).
  rewrite parseFloat_cents_le by (right; split; lia).
  rewrite (proj2 (Z.leb_gt _ _)) by done.
  by rewrite numeric_of_new_winner by (done || lia).
Qed.

Lemma proxy_bidding_row r s a p w s1 :
  proxy_bidding r s = Some (p, w, s1) ->
  auctions s !! auctionId r = Some a ->
  exists a1,
    auctions s1 !! auctionId r = Some a1 /\
    current_price a1 = p /\
    end_time a1 = end_time a /\ same_listing a a1 /\
    bid_count a1 = (if w then bid_count a + 1 else bid_count a).
Proof.
  intros Hpb Ha. unfold proxy_bidding in Hpb.
  destruct (current_highest_bid s (auctionId r)) as [c|]; [destruct (double_le _ _)|];
    (destruct (numeric_of_double _) as [price|]; [|done]);
    cbn in Hpb; injection Hpb as <- <- <-; cbn;
    rewrite lookup_alter_eq, Ha; cbn; eexists; (split; [done|]);
    repeat split; done.
Qed.

Lemma proxy_bidding_row_ne r s id p w s1 :
  proxy_bidding r s = Some (p, w, s1) ->
  auctionId r <> id ->
  auctions s1 !! id = auctions s !! id.
Proof.
  intros Hpb Hne. unfold proxy_bidding in Hpb.
  destruct (current_highest_bid s (auctionId r)) as [c|]; [destruct (double_le _ _)|];
    (destruct (numeric_of_double _) as [price|]; [|done]);
    cbn in Hpb; injection Hpb as <- <- <-; cbn;
    by rewrite lookup_alter_ne.
Qed.

Lemma anti_snipe_bids now a id s : bids (anti_snipe now a id s) = bids s.
Proof. unfold anti_snipe. by case_decide. Qed.

Lemma anti_snipe_row now a id s a1 :
  auctions s !! id = Some a1 ->
  auctions (anti_snipe now a id s) !! id =
    Some (if decide (end_time a - now < fiveMinutes)
          then set_end_time (now + fiveMinutes) a1 else a1).
Proof.
  intros Ha. unfold anti_snipe. case_decide; [|done].
  by rewrite (lookup_update_auction _ _ _ a1).
Qed.

Lemma anti_snipe_row_ne now a id id' s :
  id <> id' ->
  auctions (anti_snipe now a id s) !! id' = auctions s !! id'.
Proof.
  intros Hne. unfold anti_snipe. case_decide; [|done].
  by rewrite lookup_update_auction_ne.
Qed.

(** What the proxy logic computes, in cents, when the column takes the
    price. *)
Lemma proxy_bidding_Some r s p w s1 :
  valid_request r = true ->
  proxy_bidding r s = Some (p, w, s1) ->
  match current_highest_bid s (auctionId r) with
  | Some c =>
      if decide (newMaxBid r <= currentMaxBid c)
      then p = Z.min (newMaxBid r + minBidIncrement) (currentMaxBid c) /\
           w = false /\ bids s1 = bids s
      else p = Z.min (currentMaxBid c + minBidIncrement) (newMaxBid r) /\
           w = true /\ bids s1 = clear_winning (auctionId r) <$> bids s
  | None => p = bidAmount r /\ w = true /\ bids s1 = bids s
  end.
Proof.
  intros [Hpos Hmax]%valid_request_pos.
  destruct (current_highest_bid s (auctionId r)) as [c|] eqn:Hc.
  - case_decide as Hle.
    + rewrite (proxy_bidding_absorbed r s c Hmax Hc Hle).
      destruct (numeric _) as [price|] eqn:Hn; [|done].
      apply numeric_inv in Hn. cbn. by intros [= <- <- <-].
    + rewrite (proxy_bidding_new_winner r s c Hc) by lia.
      destruct (numeric _) as [price|] eqn:Hn; [|done].
      apply numeric_inv in Hn. cbn. by intros [= <- <- <-].
  - rewrite (proxy_bidding_first r s Hpos Hc).
    destruct (numeric _) as [price|] eqn:Hn; [|done].
    apply numeric_inv in Hn. cbn. by intros [= <- <- <-].
Qed.

(** The pieces of an accepted ordinary bid. *)
Lemma normal_bid_BidPlaced now r a s nb p n evs s' :
  normal_bid now r a s = (BidPlaced nb p n, evs, s') ->
  exists s1,
    proxy_bidding r s = Some (p, is_winning nb, s1) /\
    n = bid_count a + 1 /\
    s' = insert_bid nb (anti_snipe now a (auctionId r) s1) /\
    bid_id nb = next_bid_id (anti_snipe now a (auctionId r) s1) /\
    auction_id nb = auctionId r /\ bidder_id nb = bidderId r /\
    amount nb = bidAmount r /\ max_bid nb = Some (newMaxBid r) /\
    is_auto_bid nb = false /\ created_at nb = now /\
    evs = [bid_placed
             {| ev_auctionId := auctionId r; ev_bidId := bid_id nb;
                ev_bidderId := bidderId r; ev_amount := bidAmount r;
                ev_currentPrice := p; ev_isWinning := is_winning nb;
                ev_bidCount := bid_count a + 1;
                ev_timeRemaining := Z.max 0 (end_time a - now) |}].
Proof.
  destruct (normal_bid_cases now r a s)
    as [->|(p0 & w & s1 & amt & mx & Hpb & Hamt & Hmx & ->)]; [done|].
  intros [= <- <- <- <- <-]. exists s1. cbn.
  apply numeric_inv in Hamt, Hmx. unfold amount, max_bid. cbn.
  rewrite Hamt, Hmx. repeat split; done.
Qed.

Lemma normal_bid_row now r a s nb p n evs s' :
  auctions s !! auctionId r = Some a ->
  normal_bid now r a s = (BidPlaced nb p n, evs, s') ->
  exists a',
    auctions s' !! auctionId r = Some a' /\
    current_price a' = p /\
    end_time a' = (if decide (end_time a - now < fiveMinutes)
                   then now + fiveMinutes else end_time a) /\
    same_listing a a' /\
    bid_count a' = (if is_winning nb then bid_count a + 1 else bid_count a).
Proof.
  intros Ha Hn.
  destruct (normal_bid_BidPlaced _ _ _ _ _ _ _ _ _ Hn) as (s1 & Hpb & _ & -> & _).
  destruct (proxy_bidding_row r s a _ _ _ Hpb Ha) as (a1 & H1 & Hp & He & Hs & Hc).
  cbn. rewrite (anti_snipe_row _ _ _ _ a1 H1).
  eexists; split; [done|]. case_decide; cbn; done.
Qed.

Lemma normal_bid_row_ne now r a s id :
  auctionId r <> id ->
  auctions (normal_bid now r a s).2 !! id = auctions s !! id.
Proof.
  intros Hne.
  destruct (normal_bid_cases now r a s)
    as [->|(p0 & w & s1 & amt & mx & Hpb & _ & _ & ->)]; [done|].
  cbn. by rewrite anti_snipe_row_ne, (proxy_bidding_row_ne r s id _ _ _ Hpb).
Qed.

(** The rows of [bids] after an accepted ordinary bid, and the price, in
    cents. *)
Lemma normal_bid_bids now r a s nb p n evs s' :
  valid_request r = true ->
  normal_bid now r a s = (BidPlaced nb p n, evs, s') ->
  match current_highest_bid s (auctionId r) with
  | Some c =>
      if decide (newMaxBid r <= currentMaxBid c)
      then p = Z.min (newMaxBid r + minBidIncrement) (currentMaxBid c) /\
           is_winning nb = false /\ bids s' = bids s ++ [nb]
      else p = Z.min (currentMaxBid c + minBidIncrement) (newMaxBid r) /\
           is_winning nb = true /\
           bids s' = (clear_winning (auctionId r) <$> bids s) ++ [nb]
  | None => p = bidAmount r /\ is_winning nb = true /\ bids s' = bids s ++ [nb]
  end.
Proof.
  intros Hv Hn.
  destruct (normal_bid_BidPlaced _ _ _ _ _ _ _ _ _ Hn) as (s1 & Hpb & _ & -> & _).
  pose proof (proxy_bidding_Some r s _ _ _ Hv Hpb) as Hs.
  cbn. rewrite anti_snipe_bids.
  destruct (current_highest_bid s (auctionId r)) as [c|]; [case_decide|];
    destruct Hs as (-> & -> & ->); done.
Qed.

(** How a response comes about. *)
Lemma place_bid_BidPlaced now r s b p n evs s' :
  place_bid now r s = (BidPlaced b p n, evs, s') ->
  exists a, admitted now r s a /\ buy_now_applies r a = None /\
            normal_bid now r a s = (BidPlaced b p n, evs, s').
Proof.
  unfold place_bid.
  destruct (valid_request r) eqn:Hv; cbn [negb]; [|done].
  destruct (select_active_auction now s (auctionId r)) as [a|] eqn:Hsel; [|done].
  case_decide; [done|]. destruct (below_required_minimum r a) eqn:Hlow; [done|].
  destruct (buy_now_applies r a) as [q|] eqn:Hb; [done|].
  intros Hn. exists a. split; [|done]. by split.
Qed.

Lemma place_bid_BuyNow now r s w q evs s' :
  place_bid now r s = (BuyNowSuccessful w q, evs, s') ->
  exists a price,
    admitted now r s a /\ buy_now_applies r a = Some price /\
    buy_now now r price s = (BuyNowSuccessful w q, evs, s').
Proof.
  unfold place_bid.
  destruct (valid_request r) eqn:Hv; cbn [negb]; [|done].
  destruct (select_active_auction now s (auctionId r)) as [a|] eqn:Hsel; [|done].
  case_decide; [done|]. destruct (below_required_minimum r a) eqn:Hlow; [done|].
  destruct (buy_now_applies r a) as [price|] eqn:Hb.
  - intros Hn. exists a, price. split; [by split | done].
  - intros Hn. destruct (normal_bid_cases now r a s)
      as [He|(p0 & w0 & s1 & amt & mx & _ & _ & _ & He)];
      rewrite He in Hn; done.
Qed.

(** ** The winning rows *)

Lemma winning_bids_app l1 l2 id :
  winning_bids (l1 ++ l2) id = winning_bids l1 id ++ winning_bids l2 id.
Proof. apply filter_app. Qed.

Lemma winning_bids_clear l id : winning_bids (clear_winning id <$> l) id = [].
Proof.
  unfold winning_bids. induction l as [|b l IH]; [done|].
  rewrite fmap_cons, filter_cons, IH. case_decide as Hc; [|done].
  exfalso. revert Hc. unfold clear_winning. case_decide as Hd.
  - cbn. by intros [_ ?].
  - done.
Qed.




Lemma winning_bids_singleton b id :
  winning_bids [b] id =
    if decide (auction_id b = id /\ is_winning b = true) then [b] else [].
Proof. unfold winning_bids. rewrite filter_cons, filter_nil. by case_decide. Qed.


Lemma latest_bid_from_Some l c :
  is_Some (foldl (fun acc b =>
                    match acc with
                    | Some c => if decide (created_at c <= created_at b)
                                then Some b else Some c
                    | None => Some b
                    end) (Some c) l).
Proof.
  revert c. induction l as [|b l IH]; intros c; cbn; [by eexists|].
  case_decide; apply IH.
Qed.

Lemma latest_bid_None l : latest_bid l = None -> l = [].
Proof.
  destruct l as [|b l]; [done|]. unfold latest_bid. cbn.
  intros Hn. destruct (latest_bid_from_Some l b) as [x Hx]. congruence.
Qed.

(** ** Rows across operations *)

Lemma buy_now_row now r p s a :
  auctions s !! auctionId r = Some a ->
  auctions (buy_now now r p s).2 !! auctionId r =
    Some (set_buy_now p (bidderId r) now a).
Proof. intros Ha. cbn. by rewrite lookup_alter_eq, Ha. Qed.

Lemma buy_now_row_ne now r p s id :
  auctionId r <> id ->
  auctions (buy_now now r p s).2 !! id = auctions s !! id.
Proof. intros Hne. cbn. by rewrite lookup_alter_ne. Qed.


Lemma place_bid_row_ne now r s id :
  auctionId r <> id ->
  auctions (place_bid now r s).2 !! id = auctions s !! id.
Proof.
  intros Hne. destruct (place_bid_cases now r s) as [[_ ->]|(a & _ & ->)]; [done|].
  destruct (buy_now_applies r a) as [p|].
  - by apply buy_now_row_ne.
  - by apply normal_bid_row_ne.
Qed.

Lemma place_bid_inactive now r s a :
  auctions s !! auctionId r = Some a -> status a <> Active ->
  rejected (place_bid now r s).1.1 = true /\ (place_bid now r s).2 = s.
Proof.
  intros Ha Hst. unfold place_bid.
  rewrite (select_active_auction_inactive now s _ a Ha Hst).
  by destruct (valid_request r).
Qed.


(** ** The sweeps and the manual close *)

Lemma processEndingAuctions_eq now s : processEndingAuctions now s = ([], s).
Proof. done. Qed.

Lemma endAuction_eq row s : endAuction row s = ([], s).
Proof.
  unfold endAuction, endAuction_try.
  by destruct (end_decision row) as [[st w] p].
Qed.

Lemma processProxyBids_eq now s : processProxyBids now s = s.
Proof. done. Qed.

Lemma processAuctionEnding_store id s : (processAuctionEnding id s).2 = s.
Proof.
  unfold processAuctionEnding.
  destruct (auctions s !! id) as [a|]; [|done].
  case_decide; [|done]. by rewrite endAuction_eq.
Qed.

Lemma step_sweep s o :
  (forall now r, o <> PlaceBid now r) -> step s o = s.
Proof.
  destruct o as [now r|now|now|id]; intros Hno; cbn.
  - by destruct (Hno now r).
  - done.
  - done.
  - apply processAuctionEnding_store.
Qed.


(** ** Properties of [POST /api/bids] *)

(** C6. A bid below the current price plus the increment, placed on an
    active auction, is always rejected and leaves the whole store (prices,
    bid counts, end times, winners, the bid rows) as it was; when the
    request is otherwise in order (valid body, auction not run out, bidder
    not the seller) the answer is the minimum-bid error carrying the
    current price plus the increment, and nothing is emitted. *)
Theorem invalid_bid_rejected now r s a :
  auctions s !! auctionId r = Some a ->
  status a = Active ->
  bidAmount r < current_price a + minBidIncrement ->
  rejected (place_bid now r s).1.1 = true /\
  (place_bid now r s).2 = s /\
  (valid_request r = true -> now < end_time a -> seller_id a <> bidderId r ->
   place_bid now r s = (BidTooLow (current_price a + minBidIncrement), [], s)).
Proof.
  intros Ha Hst Hlow.
  assert (Hrej : rejected (place_bid now r s).1.1 = true).
  { unfold place_bid, select_active_auction. rewrite Ha.
    destruct (valid_request r) eqn:Hv; cbn [negb]; [|done].
    apply valid_request_pos in Hv as [Hpos _].
    case_decide; [|done]. case_decide; [done|].
    by rewrite below_required_minimum_low. }
  split; [done|]. split.
  - by rewrite (place_bid_rejected _ _ _ Hrej).
  - intros Hv Hend Hsel. unfold place_bid, select_active_auction.
    rewrite Hv, Ha. cbn [negb].
    apply valid_request_pos in Hv as [Hpos _].
    case_decide as Hc; [|tauto]. case_decide; [done|].
    by rewrite below_required_minimum_low, requiredMinBid_toFixed_eq.
Qed.

(** C5 (as the code has it).  Anti-snipe extension.  When a bid is
    accepted on the ordinary path, the auction's end time becomes [now]
    plus five minutes if less than five minutes were left, and stays as
    it was otherwise; in both cases it does not move back.  A bid that is
    accepted as a buy-now purchase closes the auction and sets its end
    time to [now], which is before the end time it had.  A rejected
    request changes nothing, the end time included. *)
Theorem anti_snipe_extension now r s a :
  auctions s !! auctionId r = Some a ->
  (is_bid_placed (place_bid now r s).1.1 = true ->
   exists a',
     auctions (place_bid now r s).2 !! auctionId r = Some a' /\
     end_time a' = (if decide (end_time a - now < 5 * 60 * 1000)
                    then now + 5 * 60 * 1000 else end_time a) /\
     end_time a <= end_time a') /\
  (forall w p, (place_bid now r s).1.1 = BuyNowSuccessful w p ->
   exists a',
     auctions (place_bid now r s).2 !! auctionId r = Some a' /\
     status a' = Sold /\ end_time a' = now /\ now < end_time a) /\
  (rejected (place_bid now r s).1.1 = true -> (place_bid now r s).2 = s).
Proof.
  intros Ha. split; [|split].
  - destruct (place_bid now r s) as [[resp evs] s'] eqn:Hpb. cbn.
    destruct resp as [| | | | | |nb p n]; try done. intros _.
    destruct (place_bid_BidPlaced _ _ _ _ _ _ _ _ Hpb) as (a0 & Had & _ & Hn).
    destruct Had as [_ Hsel _ _].
    apply select_active_auction_Some in Hsel as (Ha0 & _ & _).
    assert (a0 = a) as -> by congruence.
    destruct (normal_bid_row _ _ _ _ _ _ _ _ _ Ha Hn) as (a' & Hrow & _ & Hend & _).
    exists a'. split; [done|]. change fiveMinutes with (5 * 60 * 1000) in Hend.
    split; [done|]. rewrite Hend. case_decide; lia.
  - intros w p Hresp.
    destruct (place_bid now r s) as [[resp evs] s'] eqn:Hpb. cbn in Hresp. subst resp.
    destruct (place_bid_BuyNow _ _ _ _ _ _ _ Hpb) as (a0 & price & Had & _ & Hb).
    destruct Had as [_ Hsel _ _].
    apply select_active_auction_Some in Hsel as (Ha0 & _ & Hnow).
    assert (a0 = a) as -> by congruence.
    pose proof (buy_now_row now r price s a Ha) as Hrow. rewrite Hb in Hrow.
    cbn [snd] in *. eexists. split; [exact Hrow|]. done.
  - intros Hrej. by rewrite (place_bid_rejected _ _ _ Hrej).
Qed.


(** C1 (as the code has it).  Second-price proxy rule.  Let an accepted
    bid of bidder B with proxy maximum [M] ([maxBid], or the amount when
    absent) meet a standing winning bid [c] with maximum [H].
    The row inserted for B carries the submitted amount and [M] as its
    maximum, and the auction's current price becomes the computed price:
    - if [M > H], the price is [min M (H + increment)], every earlier
      winning row of the auction is flipped to not winning, and B's row
      is the one winning row;
    - if [M <= H] (ties included), the price is [min H (M + increment)],
      the earlier rows are untouched, B's row is not winning and [c] is
      still the standing winning bid. *)
Theorem proxy_second_price_rule now r s a c newBid p n evs s' :
  auctions s !! auctionId r = Some a ->
  current_highest_bid s (auctionId r) = Some c ->
  place_bid now r s = (BidPlaced newBid p n, evs, s') ->
  exists a',
    n = bid_count a + 1 /\
    auctions s' !! auctionId r = Some a' /\ current_price a' = p /\
    bidder_id newBid = bidderId r /\ amount newBid = bidAmount r /\
    max_bid newBid = Some (newMaxBid r) /\
    (currentMaxBid c < newMaxBid r ->
       p = Z.min (newMaxBid r) (currentMaxBid c + minBidIncrement) /\
       is_winning newBid = true /\
       bids s' = (clear_winning (auctionId r) <$> bids s) ++ [newBid] /\
       winning_bids (bids s') (auctionId r) = [newBid]) /\
    (newMaxBid r <= currentMaxBid c ->
       p = Z.min (currentMaxBid c) (newMaxBid r + minBidIncrement) /\
       is_winning newBid = false /\
       bids s' = bids s ++ [newBid] /\
       current_highest_bid s' (auctionId r) = Some c).
Proof.
  intros Ha Hc Hpb.
  destruct (place_bid_BidPlaced _ _ _ _ _ _ _ _ Hpb) as (a0 & Had & _ & Hn).
  pose proof Had as [Hv Hsel _ _].
  apply select_active_auction_Some in Hsel as (Ha0 & _ & _).
  assert (a0 = a) as -> by congruence.
  destruct (normal_bid_row _ _ _ _ _ _ _ _ _ Ha Hn) as (a' & Hrow & Hp & _).
  destruct (normal_bid_BidPlaced _ _ _ _ _ _ _ _ _ Hn)
    as (s1 & _ & -> & _ & _ & Hid & Hbidder & Ham & Hmax & _).
  pose proof (normal_bid_bids _ _ _ _ _ _ _ _ _ Hv Hn) as Hbids.
  rewrite Hc in Hbids.
  exists a'. repeat (split; [done|]). split.
  - intros Hlt. rewrite decide_False in Hbids by lia.
    destruct Hbids as (-> & Hw & Hb). split; [lia|]. split; [done|].
    split; [done|].
    rewrite Hb, winning_bids_app, winning_bids_clear, winning_bids_singleton.
    by rewrite decide_True.
  - intros Hle. rewrite decide_True in Hbids by done.
    destruct Hbids as (-> & Hw & Hb). split; [lia|]. split; [done|].
    split; [done|].
    unfold current_highest_bid in *.
    rewrite Hb, winning_bids_app, winning_bids_singleton.
    rewrite decide_False, app_nil_r; [done|]. rewrite Hw. by intros [_ ?].
Qed.

(** ** Runs *)





Lemma step_inactive_row s o id a :
  auctions s !! id = Some a -> status a <> Active ->
  auctions (step s o) !! id = Some a.
Proof.
  intros Ha Hst. destruct o as [now r|now|now|id'].
  - cbn. destruct (decide (auctionId r = id)) as [<-|Hne].
    + by destruct (place_bid_inactive now r s a Ha Hst) as [_ ->].
    + by rewrite place_bid_row_ne.
  - done.
  - done.
  - cbn. by rewrite processAuctionEnding_store.
Qed.

Lemma run_inactive_row ops s id a :
  auctions s !! id = Some a -> status a <> Active ->
  auctions (run s ops) !! id = Some a.
Proof.
  revert s. induction ops as [|o ops IH]; intros s Ha Hst; [done|].
  cbn. apply IH; [by apply step_inactive_row | done].
Qed.

(** C2 (as the code has it).  Buy-now.  A bid that passes the handler's
    earlier checks (valid body, active auction not yet run out, bidder
    not the seller, amount that the handler's test does not find below
    the current price plus the increment) and reaches the buy-now price
    closes the auction at once: status sold, the bidder as winner, the
    current price at the buy-now price, the end time at [now], whatever
    bids came before; the proxy logic is not run.  From then on, after
    any further bids, scheduler sweeps and manual closes, every bid on
    that auction is rejected and changes nothing. *)
Theorem buy_now_short_circuit now r s a p :
  admitted now r s a ->
  buy_now_price a = Some p ->
  p <= bidAmount r ->
  exists s' a',
    place_bid now r s =
      (BuyNowSuccessful (bidderId r) p,
       [auction_ended_buy_now (auctionId r) (bidderId r) p], s') /\
    auctions s' !! auctionId r = Some a' /\
    status a' = Sold /\ winner_id a' = Some (bidderId r) /\
    current_price a' = p /\ end_time a' = now /\
    forall ops now' r',
      auctionId r' = auctionId r ->
      rejected (place_bid now' r' (run s' ops)).1.1 = true /\
      (place_bid now' r' (run s' ops)).2 = run s' ops.
Proof.
  intros Had Hbn Hp.
  rewrite (place_bid_admitted now r s a Had).
  pose proof Had as [Hv Hsel _ _].
  apply valid_request_pos in Hv as [Hpos _].
  rewrite buy_now_applies_cents by done.
  unfold buy_now_price in Hbn.
  destruct (col_buy_now_price a) as [price|]; [|done].
  cbn in Hbn. injection Hbn as <-. rewrite decide_True by done.
  apply select_active_auction_Some in Hsel as (Ha & _ & _).
  pose proof (buy_now_row now r price s a Ha) as Hrow.
  destruct (buy_now now r price s) as [[resp evs] s'] eqn:Hb.
  assert (resp = BuyNowSuccessful (bidderId r) (cents price) /\
          evs = [auction_ended_buy_now (auctionId r) (bidderId r) (cents price)])
    as [-> ->].
  { unfold buy_now in Hb. by injection Hb as <- <- _. }
  cbn in Hrow. exists s', (set_buy_now price (bidderId r) now a).
  repeat (split; [done|]).
  intros ops now' r' Hid.
  apply (place_bid_inactive now' r' _ (set_buy_now price (bidderId r) now a)); [|done].
  rewrite Hid. by apply run_inactive_row.
Qed.

(** ** Monotone price *)


(** On the ordinary path the auction keeps exactly one winning row, if it
    had at most one before. *)
Lemma normal_bid_single_winner now r a s nb p n evs s' :
  valid_request r = true ->
  normal_bid now r a s = (BidPlaced nb p n, evs, s') ->
  (length (winning_bids (bids s) (auctionId r)) <= 1)%nat ->
  length (winning_bids (bids s') (auctionId r)) = 1%nat.
Proof.
  intros Hv Hn Hle.
  pose proof (normal_bid_bids _ _ _ _ _ _ _ _ _ Hv Hn) as Hbids.
  destruct (normal_bid_BidPlaced _ _ _ _ _ _ _ _ _ Hn)
    as (s1 & _ & _ & _ & _ & Hid & _).
  destruct (current_highest_bid s (auctionId r)) as [c|] eqn:Hc.
  - case_decide as Hm; destruct Hbids as (_ & Hw & ->);
      rewrite winning_bids_app, winning_bids_singleton.
    + rewrite decide_False, app_nil_r by (rewrite Hw; by intros [_ ?]).
      unfold current_highest_bid in Hc.
      destruct (winning_bids (bids s) (auctionId r)) as [|b [|b' l]]; cbn in *;
        [done | done | lia].
    + by rewrite winning_bids_clear, decide_True.
  - destruct Hbids as (_ & Hw & ->).
    rewrite winning_bids_app, winning_bids_singleton.
    apply latest_bid_None in Hc. by rewrite Hc, decide_True.
Qed.









(** ** The scenarios, evaluated *)

Lemma after_opening_eq :
  after_opening =
    {| auctions := {[ 7 := opening_row ]}; bids := [opening_bid] |}.
Proof. vm_compute. reflexivity. Qed.

(** An instance of [proxy_second_price_rule]: the standing bid has maximum
    100.00; a bid of 12.00 with maximum 150.00 wins at 101.00. *)
Lemma proxy_second_price_rule_witness :
  exists newBid evs s',
    place_bid 1000 (bid_on7 3 1200 (Some 15000)) after_opening =
      (BidPlaced newBid 10100 2, evs, s') /\
    is_winning newBid = true /\ bidder_id newBid = 3 /\
    winning_bids (bids s') 7 = [newBid].
Proof.
  eassert (place_bid 1000 (bid_on7 3 1200 (Some 15000)) after_opening =
           (BidPlaced _ 10100 2, _, _)) as Hpb by (vm_compute; reflexivity).
  destruct (proxy_second_price_rule 1000 (bid_on7 3 1200 (Some 15000))
              after_opening opening_row opening_bid _ _ _ _ _
              ltac:(vm_compute; reflexivity) ltac:(vm_compute; reflexivity) Hpb)
    as (a' & _ & _ & _ & Hb & _ & _ & Hwin & _).
  destruct Hwin as (_ & Hw & _ & Hrows); [vm_compute; reflexivity|].
  do 3 eexists. split; [exact Hpb|]. repeat split; assumption.
Defined.

(** C1, where the specification and the code part ways.  With the standing maximum
    at 100.00, a bid of 150.00 (no [maxBid], so its maximum is 150.00)
    wins and moves the price to 101.00, yet the winning row inserted for
    it carries the amount 150.00; likewise a bid of 12.00 with maximum
    150.00 is stored with amount 12.00.  The computed price is in the
    auction's row only. *)
Lemma winning_row_not_at_computed_price :
  (exists newBid evs s' a',
     place_bid 1000 (bid_on7 3 15000 None) after_opening =
       (BidPlaced newBid 10100 2, evs, s') /\
     last (bids s') = Some newBid /\ is_winning newBid = true /\
     auctions s' !! 7 = Some a' /\ current_price a' = 10100 /\
     amount newBid = 15000 /\ amount newBid <> current_price a') /\
  (exists newBid evs s',
     place_bid 1000 (bid_on7 3 1200 (Some 15000)) after_opening =
       (BidPlaced newBid 10100 2, evs, s') /\
     last (bids s') = Some newBid /\ is_winning newBid = true /\
     amount newBid = 1200).
Proof.
  split.
  - do 4 eexists. split; [vm_compute; reflexivity|].
    split; [reflexivity|]. split; [reflexivity|].
    split; [vm_compute; reflexivity|]. split; [reflexivity|].
    split; [reflexivity | discriminate].
  - do 3 eexists. split; [vm_compute; reflexivity|]. repeat split.
Qed.

(** An instance of [buy_now_short_circuit]: buy-now at 50.00, a first bid of
    60.00. *)
Lemma buy_now_short_circuit_witness :
  exists s' a',
    place_bid 0 (bid_on7 2 6000 None) (shop (listing 1000 None (Some 5000))) =
      (BuyNowSuccessful 2 5000, [auction_ended_buy_now 7 2 5000], s') /\
    auctions s' !! 7 = Some a' /\ status a' = Sold /\
    current_price a' = 5000 /\ end_time a' = 0 /\
    rejected (place_bid 10 (bid_on7 3 7000 None) s').1.1 = true.
Proof.
  destruct (buy_now_short_circuit 0 (bid_on7 2 6000 None)
              (shop (listing 1000 None (Some 5000)))
              (listing 1000 None (Some 5000)) 5000)
    as (s' & a' & Hpb & Hrow & Hst & _ & Hp & He & Hafter).
  - split; [vm_compute; reflexivity | vm_compute; reflexivity | discriminate |
            vm_compute; reflexivity].
  - reflexivity.
  - cbn. lia.
  - exists s', a'. repeat (split; [assumption|]).
    apply (Hafter [] 10 (bid_on7 3 7000 None)). reflexivity.
Defined.

(** C2, where the specification and the code part ways.  The minimum-bid check
    comes before the buy-now check: with the current price at 49.50 and
    buy-now at 50.00, a bid of exactly 50.00 on the active auction reaches
    the buy-now price and is rejected, since 50.50 is required; the
    auction stays active at 49.50. *)
Lemma buy_now_behind_minimum_bid :
  let s := shop (listing 4950 None (Some 5000)) in
  let r := bid_on7 2 5000 None in
  select_active_auction 0 s (auctionId r) = Some (listing 4950 None (Some 5000)) /\
  buy_now_price (listing 4950 None (Some 5000)) = Some 5000 /\
  5000 <= bidAmount r /\
  place_bid 0 r s = (BidTooLow 5050, [], s) /\
  status <$> auctions (place_bid 0 r s).2 !! 7 = Some Active.
Proof.
  cbn zeta. split; [vm_compute; reflexivity|]. split; [reflexivity|].
  split; [cbn; lia|]. split; vm_compute; reflexivity.
Qed.

(** An instance of [anti_snipe_extension]: a bid two minutes before the end
    moves the end to five minutes after the bid. *)
Lemma anti_snipe_extension_witness :
  exists a',
    auctions (place_bid 3480000 opening (shop (listing 1000 None None))).2 !! 7
      = Some a' /\
    end_time a' = 3480000 + 5 * 60 * 1000.
Proof.
  destruct (anti_snipe_extension 3480000 opening (shop (listing 1000 None None))
              (listing 1000 None None)) as [Hacc _]; [vm_compute; reflexivity|].
  destruct Hacc as (a' & Hrow & Hend & _); [vm_compute; reflexivity|].
  exists a'. split; [exact Hrow|]. rewrite Hend. reflexivity.
Defined.

(** C5, where the specification and the code part ways.  A bid that
    reaches the buy-now price is accepted, and the end time moves back to
    the time of the bid: with an hour left (more than the window) the end
    time does not stay, and with two minutes left (inside the window) it
    becomes [now], not [now] plus five minutes. *)
Lemma buy_now_moves_end_time_back :
  (rejected (place_bid 0 (bid_on7 2 6000 None)
               (shop (listing 1000 None (Some 5000)))).1.1 = false /\
   end_time <$> auctions (shop (listing 1000 None (Some 5000))) !! 7
     = Some 3600000 /\
   end_time <$> auctions (place_bid 0 (bid_on7 2 6000 None)
                            (shop (listing 1000 None (Some 5000)))).2 !! 7
     = Some 0) /\
  (rejected (place_bid 3480000 (bid_on7 2 6000 None)
               (shop (listing 1000 None (Some 5000)))).1.1 = false /\
   3600000 - 3480000 < 5 * 60 * 1000 /\
   end_time <$> auctions (place_bid 3480000 (bid_on7 2 6000 None)
                            (shop (listing 1000 None (Some 5000)))).2 !! 7
     = Some 3480000).
Proof.
  split; (split; [vm_compute; reflexivity|]); (split; [done|]);
    vm_compute; reflexivity.
Qed.

(** An instance of [invalid_bid_rejected]: 10.50 against a current price of
    10.00. *)
Lemma invalid_bid_rejected_witness :
  place_bid 0 (bid_on7 2 1050 None) (shop (listing 1000 None None)) =
    (BidTooLow 1100, [], shop (listing 1000 None None)).
Proof.
  destruct (invalid_bid_rejected 0 (bid_on7 2 1050 None)
              (shop (listing 1000 None None)) (listing 1000 None None))
    as (_ & _ & Hmin);
    [vm_compute; reflexivity | reflexivity | vm_compute; reflexivity |].
  apply Hmin; [vm_compute; reflexivity | cbn; lia | discriminate].
Defined.


(** C3, at failing inputs.  The auction has a reserve of 200.00 and runs
    out at time 3600000; one bid is placed, then the scheduler sweeps at
    that time and again a minute later.  The sweep's query names a column
    [user_id] of [bids], which the table has not: the query is refused,
    the sweep logs the error and closes nothing.  With a highest bid of
    250.00 (above the reserve) and with one of 150.00 (below it) alike,
    the auction is still active, has no winner, and keeps its price and
    its end time; no event is emitted. *)
Theorem scheduler_close_with_reserve_fails :
  let close amt :=
    run (shop (listing 1000 (Some 20000) None))
        [PlaceBid 0 (bid_on7 2 amt None); Tick 3600000; Tick 3660000] in
  (exists a, auctions (close 25000) !! 7 = Some a /\
             status a = Active /\ winner_id a = None /\
             current_price a = 25000 /\ end_time a = 3600000) /\
  (exists a, auctions (close 15000) !! 7 = Some a /\
             status a = Active /\ winner_id a = None /\
             current_price a = 15000 /\ end_time a = 3600000) /\
  (forall now s, processEndingAuctions now s = ([], s)).
Proof.
  cbn zeta. split; [|split].
  - eexists. split; [vm_compute; reflexivity|]. repeat split.
  - eexists. split; [vm_compute; reflexivity|]. repeat split.
  - intros now s. apply processEndingAuctions_eq.
Qed.

(** C4, at a failing input.  Bidder 2 is the standing winner at 11.00 when
    bidder 3 buys at the buy-now price of 500.00: the buy-now branch
    inserts its winning row and leaves the earlier winning row flagged,
    so the sold auction has two rows with [is_winning = true]. *)
Theorem buy_now_leaves_two_winning_rows :
  let s := run (shop (listing 1000 None (Some 50000)))
               [PlaceBid 0 (bid_on7 2 1100 None);
                PlaceBid 1000 (bid_on7 3 50000 None)] in
  status <$> auctions s !! 7 = Some Sold /\
  bidder_id <$> winning_bids (bids s) 7 = [2; 3] /\
  length (winning_bids (bids s) 7) = 2%nat.
Proof.
  cbn zeta. split; [vm_compute; reflexivity|].
  split; vm_compute; reflexivity.
Qed.



(** C8, at a failing input.  Bidder 2 stands at 11.00 with maximum 100.00;
    bidder 3 bids 50.00, is absorbed, and the price moves to 51.00 with
    bidder 2 still flagged as winning.  At the close the scheduler's
    query asks for the [user_id] of the bid with the highest amount;
    [bids] has no such column, the query is refused, and the
    recomputation names nobody: the auction stays active without a
    winner. *)
Theorem scheduler_winner_differs_from_winning_row :
  let s := run after_opening [PlaceBid 1000 (bid_on7 3 5000 None)] in
  bidder_id <$> winning_bids (bids s) 7 = [2] /\
  current_price <$> auctions s !! 7 = Some 5100 /\
  ending_auctions 3600000 s = inl (undefined_column "bids" "user_id") /\
  winner_id <$> auctions (run s [Tick 3600000]) !! 7 = Some None /\
  status <$> auctions (run s [Tick 3600000]) !! 7 = Some Active.
Proof.
  cbn zeta. do 4 (split; [vm_compute; reflexivity|]).
  vm_compute; reflexivity.
Qed.

(** C9, at a failing input.  Bidder 2 stands with maximum 100.00; two
    minutes before the end bidder 3 bids 50.00 and is absorbed.  One row
    is appended and the price moves to 51.00, but the stored bid count
    stays at 1 while the event reports 2, and the event's remaining time
    is the two minutes of the old end time while the stored end time is
    five minutes away. *)
Theorem absorbed_bid_event_differs_from_state :
  let now := 3480000 in
  exists newBid p s' a',
    place_bid now (bid_on7 3 5000 None) after_opening =
      (BidPlaced newBid 5100 2, [bid_placed p], s') /\
    bids s' = bids after_opening ++ [newBid] /\
    auctions s' !! 7 = Some a' /\
    current_price a' = 5100 /\ ev_currentPrice p = 5100 /\
    bid_count opening_row = 1 /\ bid_count a' = 1 /\ ev_bidCount p = 2 /\
    end_time a' - now = 300000 /\ ev_timeRemaining p = 120000.
Proof.
  cbn zeta. do 4 eexists. split; [vm_compute; reflexivity|].
  split; [vm_compute; reflexivity|]. split; [vm_compute; reflexivity|].
  repeat split.
Qed.

(** ** The bid lists *)

#[local] Instance not_older_total : Total not_older.
Proof. intros x y. unfold not_older. lia. Qed.

#[local] Instance not_older_trans : Transitive not_older.
Proof. intros x y z. unfold not_older. lia. Qed.

Lemma newest_first_sorted l : StronglySorted not_older (newest_first l).
Proof. apply StronglySorted_merge_sort; apply _. Qed.

Lemma newest_first_perm l : newest_first l ≡ₚ l.
Proof. apply merge_sort_Permutation. Qed.

Lemma elem_of_bids_with_bidders db id b u :
  (b, u) ∈ bids_with_bidders db id <->
  b ∈ bids (db_store db) /\ auction_id b = id /\ db_users db !! bidder_id b = Some u.
Proof.
  unfold bids_with_bidders. rewrite list_elem_of_omap. split.
  - intros (b0 & [Hid Hb]%list_elem_of_filter & Hu).
    destruct (db_users db !! bidder_id b0) as [u0|] eqn:Hu0; [|done].
    injection Hu as -> ->. done.
  - intros (Hb & Hid & Hu). exists b. split; [by apply list_elem_of_filter|].
    by rewrite Hu.
Qed.

(** X11. The public bid list of an auction.  It has at most fifty rows;
    they are rows of bids of that auction (with the bidder's name from the
    users table), newest first; and they are the newest ones: the bids of
    the auction split into the rows shown and the rows left out, fifty
    shown or all of them if there are fewer, and no row left out was
    created after a row shown. *)
Theorem public_bid_list_newest_fifty db id :
  (length (query_auction_bids db id) <= 50)%nat /\
  StronglySorted (fun x y => pub_createdAt y <= pub_createdAt x)
                 (query_auction_bids db id) /\
  exists shown hidden,
    query_auction_bids db id = public_row <$> shown /\
    bids_with_bidders db id ≡ₚ shown ++ hidden /\
    length shown = (50 `min` length (bids_with_bidders db id))%nat /\
    (forall x y, x ∈ shown -> y ∈ hidden -> created_at y.1 <= created_at x.1) /\
    (forall b u, (b, u) ∈ shown ->
       b ∈ bids (db_store db) /\ auction_id b = id /\
       db_users db !! bidder_id b = Some u).
Proof.
  unfold query_auction_bids.
  set (sorted := newest_first (bids_with_bidders db id)).
  pose proof (newest_first_sorted (bids_with_bidders db id)) as Hs.
  pose proof (newest_first_perm (bids_with_bidders db id)) as Hp.
  fold sorted in Hs, Hp.
  split; [rewrite length_fmap, length_take; lia|]. split.
  - apply (StronglySorted_fmap _ not_older); [by intros x y|].
    rewrite <- (take_drop 50 sorted) in Hs. by apply StronglySorted_app_1_l in Hs.
  - exists (take 50 sorted), (drop 50 sorted). split; [done|].
    split; [by rewrite take_drop|].
    split; [by rewrite length_take, (Permutation_length Hp)|]. split.
    + intros x y Hx Hy. rewrite <- (take_drop 50 sorted) in Hs.
      apply (StronglySorted_app_1_elem_of _ _ _ x y Hs Hx Hy).
    + intros b u Hbu. apply elem_of_bids_with_bidders. rewrite <- Hp.
      rewrite <- (take_drop 50 sorted). apply elem_of_app. by left.
Qed.


(** ** The cache in front of the public bid list *)

Lemma AUCTION_BIDS_ne_DETAILS i j : AUCTION_BIDS i <> AUCTION_DETAILS j.
Proof. unfold AUCTION_BIDS, AUCTION_DETAILS. cbn. discriminate. Qed.

Lemma AUCTION_BIDS_ne_FEED i p : AUCTION_BIDS i <> AUCTION_FEED p.
Proof. unfold AUCTION_BIDS, AUCTION_FEED. cbn. discriminate. Qed.

Lemma post_bid_keeps_bid_list now r sc id :
  match (post_bid now r sc).2.2, sc.2 with
  | Some m', Some m => m' !! AUCTION_BIDS id = m !! AUCTION_BIDS id
  | None, None => True
  | _, _ => False
  end.
Proof.
  unfold post_bid. destruct (place_bid now r sc.1) as [[resp evs] s']. cbn.
  destruct sc as [s [m|]]; cbn; destruct (rejected resp); try done.
  rewrite !lookup_delete_ne; [done|..].
  - apply not_eq_sym, AUCTION_BIDS_ne_DETAILS.
  - apply not_eq_sym, AUCTION_BIDS_ne_FEED.
Qed.

Lemma run_posts_keeps_bid_list posts sc now id :
  cache_get now (AUCTION_BIDS id) (run_posts sc posts).2 =
  cache_get now (AUCTION_BIDS id) sc.2.
Proof.
  revert sc. induction posts as [|p posts IH]; intros sc; [done|].
  unfold run_posts. cbn [foldl]. fold (run_posts (post_bid p.1 p.2 sc).2 posts).
  rewrite IH. pose proof (post_bid_keeps_bid_list p.1 p.2 sc id) as H.
  unfold cache_get. destruct ((post_bid p.1 p.2 sc).2.2), (sc.2); try done.
  by rewrite H.
Qed.

(** X13. The public bid list can be up to thirty seconds old.  With an
    open Redis client, once a list has been computed (nothing was cached
    for the auction), every request for it during the next thirty seconds
    gets that same list, whatever bids were accepted in between and
    whatever the database holds by then: placing a bid deletes the
    auction's details entry and the first feed page, not its bid list. *)
Theorem bid_list_served_from_cache t0 t1 id db m posts db' :
  cache_get t0 (AUCTION_BIDS id) (Some m) = None ->
  t1 < t0 + 30000 ->
  let first := get_auction_bids t0 (Some id) db (Some m) in
  let later := run_posts (db_store db, first.2) posts in
  first.1 = BidsJson (BidsBody (query_auction_bids db id)) /\
  get_auction_bids t1 (Some id) db' later.2 = (first.1, later.2).
Proof.
  intros Hmiss Ht first later.
  assert (Hfirst : first = (BidsJson (BidsBody (query_auction_bids db id)),
                            cache_set t0 (AUCTION_BIDS id)
                              (BidsBody (query_auction_bids db id)) 30 (Some m))).
  { unfold first, get_auction_bids. by rewrite Hmiss. }
  split; [by rewrite Hfirst|].
  unfold get_auction_bids. unfold later. rewrite run_posts_keeps_bid_list.
  rewrite Hfirst. cbn. rewrite lookup_insert_eq. cbn.
  rewrite decide_True by lia. done.
Qed.

(** ** The bidder's own bids *)

#[local] Instance by_auction_newest_total : Total by_auction_newest.
Proof. intros x y. unfold by_auction_newest. lia. Qed.

#[local] Instance by_auction_newest_trans : Transitive by_auction_newest.
Proof. intros x y z. unfold by_auction_newest. lia. Qed.








(** ** Roles *)

(** X16. The role checks are nested: whoever passes [requireAdmin] passes
    [requireModerator], and whoever passes [requireModerator] passes
    [requireSeller].  A buyer passes none of them, and a request without
    a user is asked to authenticate by all three. *)
Theorem role_checks_are_nested req_user :
  (requireAdmin req_user = RoleNext -> requireModerator req_user = RoleNext) /\
  (requireModerator req_user = RoleNext -> requireSeller req_user = RoleNext) /\
  (requireSeller req_user = RoleNext <->
     exists u, req_user = Some u /\ role u <> buyer) /\
  (req_user = None ->
     requireAdmin req_user = RoleAuthRequired /\
     requireModerator req_user = RoleAuthRequired /\
     requireSeller req_user = RoleAuthRequired).
Proof.
  unfold requireAdmin, requireModerator, requireSeller, requireRole.
  destruct req_user as [u|].
  - destruct (role u) eqn:Hr; repeat split; try done;
      try (intros _; exists u; by rewrite Hr);
      try (intros (u' & [= <-] & Hne); by rewrite Hr in Hne).
  - repeat split; try done. by intros (u & ? & _).
Qed.

(** ** The rate limiter *)

Lemma filter_window_narrow (lo lo' : Z) (l : list Z) :
  lo <= lo' ->
  filter (fun t => lo' < t) (filter (fun t => lo < t) l) = filter (fun t => lo' < t) l.
Proof.
  intros Hle. induction l as [|x l IH]; [done|].
  rewrite (filter_cons (fun t => lo < t)), (filter_cons (fun t => lo' < t) x l).
  destruct (decide (lo < x)); destruct (decide (lo' < x)); try lia.
  - by rewrite filter_cons, decide_True, IH.
  - by rewrite filter_cons, decide_False, IH.
  - done.
Qed.

Lemma filter_window_idemp (lo : Z) (l : list Z) :
  filter (fun t => lo < t) (filter (fun t => lo < t) l) = filter (fun t => lo < t) l.
Proof. by apply filter_window_narrow. Qed.

(** The list kept for [k] after one call. *)
Lemma userRateLimit_stored max w now k requests :
  let cleaned := filter (fun t => now - w < t) (default [] (requests !! k)) in
  (userRateLimit max w now k requests).1 =
    (if decide (max <= Z.of_nat (length cleaned))
     then RateTooMany ((fun t0 => ceil_seconds (t0 + w - now)) <$> head cleaned)
     else RateNext) /\
  default [] ((userRateLimit max w now k requests).2 !! k) =
    (if decide (max <= Z.of_nat (length cleaned)) then cleaned else cleaned ++ [now]) /\
  forall k', k' <> k ->
    (userRateLimit max w now k requests).2 !! k' = requests !! k'.
Proof.
  intros cleaned. subst cleaned. unfold userRateLimit. cbv zeta.
  destruct (requests !! k) as [l|] eqn:Hl.
  - rewrite lookup_insert_eq. unfold default, from_option, id.
    case_decide; cbn [fst snd].
    + rewrite lookup_insert_eq. repeat split; [done..|].
      intros k' Hne. by rewrite lookup_insert_ne.
    + rewrite lookup_insert_eq. repeat split; [done..|].
      intros k' Hne. by rewrite !lookup_insert_ne.
  - rewrite Hl. unfold default, from_option, id. rewrite filter_nil. cbn [length].
    case_decide; cbn [fst snd].
    + rewrite Hl. done.
    + rewrite lookup_insert_eq. repeat split; [done..|].
      intros k' Hne. by rewrite lookup_insert_ne.
Qed.

Lemma rate_run_cons max w now k calls requests :
  rate_run max w ((now, k) :: calls) requests =
    ((userRateLimit max w now k requests).1 ::
       (rate_run max w calls (userRateLimit max w now k requests).2).1,
     (rate_run max w calls (userRateLimit max w now k requests).2).2).
Proof.
  cbn [rate_run]. destruct (userRateLimit max w now k requests) as [r requests'].
  cbn. by destruct (rate_run max w calls requests').
Qed.

Lemma rate_run_window max w calls :
  0 < w ->
  forall requests (hist : Z + string -> list Z) tlast,
    clock_from tlast calls ->
    (forall k, filter (fun t => tlast - w < t) (default [] (requests !! k)) =
               filter (fun t => tlast - w < t) (hist k)) ->
    forall now k,
      last calls = Some (now, k) ->
      last (rate_run max w calls requests).1 = Some RateNext ->
      Z.of_nat (length (filter (fun t => now - w < t)
                          (hist k ++ admitted_times k calls
                                      (rate_run max w calls requests).1))) <= max.
Proof.
  intros Hw. induction calls as [|[t k0] calls IH];
    intros requests hist tlast Hclock Hinv now k Hlast Hadm; [done|].
  destruct Hclock as [Ht Hclock]. rewrite rate_run_cons in Hadm |- *. cbn [fst] in *.
  destruct (userRateLimit_stored max w t k0 requests) as (Hres & Hst & Hother).
  cbv zeta in Hres, Hst.
  set (cleaned := filter (fun time => t - w < time) (default [] (requests !! k0))) in *.
  assert (Hcl : cleaned = filter (fun time => t - w < time) (hist k0)).
  { unfold cleaned.
    rewrite <- (filter_window_narrow (tlast - w) (t - w)) by lia.
    rewrite Hinv. apply filter_window_narrow. lia. }
  set (r := (userRateLimit max w t k0 requests).1) in *.
  set (requests' := (userRateLimit max w t k0 requests).2) in *.
  destruct calls as [|c calls].
  - (* the call in question *)
    cbn in Hlast. injection Hlast as <- <-. cbn in Hadm. injection Hadm as Hadm.
    rewrite Hadm in Hres. cbn. rewrite Hadm, decide_True by done.
    destruct (decide (max <= Z.of_nat (length cleaned))) as [Hfull|Hfree]; [done|].
    rewrite filter_app, <- Hcl, length_app.
    rewrite filter_cons, decide_True, filter_nil by lia. cbn. lia.
  - (* a later call *)
    set (hist' := fun k' => if decide (k' = k0)
                            then (match r with RateNext => hist k0 ++ [t] | _ => hist k0 end)
                            else hist k').
    assert (Hinv' : forall k', filter (fun time => t - w < time) (default [] (requests' !! k')) =
                               filter (fun time => t - w < time) (hist' k')).
    { intros k'. unfold hist'. destruct (decide (k' = k0)) as [->|Hk].
      - rewrite Hst, Hres.
        destruct (decide (max <= Z.of_nat (length cleaned))) as [Hfull|Hfree].
        + unfold cleaned at 1. by rewrite filter_window_idemp.
        + rewrite !filter_app. unfold cleaned at 1.
          by rewrite filter_window_idemp, <- Hcl.
      - rewrite (Hother k' Hk).
        rewrite <- (filter_window_narrow (tlast - w) (t - w)) by lia.
        rewrite Hinv. apply filter_window_narrow. lia. }
    assert (Hlast' : last (c :: calls) = Some (now, k)) by done.
    assert (Hadm' : last (rate_run max w (c :: calls) requests').1 = Some RateNext).
    { revert Hadm. destruct (rate_run max w (c :: calls) requests').1 eqn:Hrs; [|done].
      exfalso. revert Hrs. destruct c as [t1 k1]. by rewrite rate_run_cons. }
    specialize (IH requests' hist' t Hclock Hinv' now k Hlast' Hadm').
    replace (hist k ++ admitted_times k ((t, k0) :: c :: calls)
                         (r :: (rate_run max w (c :: calls) requests').1))
      with (hist' k ++ admitted_times k (c :: calls)
                         (rate_run max w (c :: calls) requests').1); [done|].
    unfold hist'. cbn [admitted_times]. destruct r.
    + destruct (decide (k0 = k)) as [->|Hne].
      * rewrite decide_True by done. by rewrite <- app_assoc.
      * by rewrite decide_False by congruence.
    + destruct (decide (k = k0)); by subst.
Qed.

(** X17. The rate limiter never lets more than [maxRequests] calls of one
    key through in a window.  Starting with an empty map and with call
    times that do not go back: whenever a call is let through at time
    [now], the calls of its key let through so far with a time after
    [now - windowMs], this call included, number at most [maxRequests]. *)
Theorem rate_limit_window_bound max w t0 calls now k :
  0 < w ->
  clock_from t0 (calls ++ [(now, k)]) ->
  last (rate_run max w (calls ++ [(now, k)]) ∅).1 = Some RateNext ->
  Z.of_nat (length (filter (fun t => now - w < t)
                      (admitted_times k (calls ++ [(now, k)])
                         (rate_run max w (calls ++ [(now, k)]) ∅).1))) <= max.
Proof.
  intros Hw Hclock Hadm.
  apply (rate_run_window max w (calls ++ [(now, k)]) Hw ∅ (fun _ => []) t0);
    [done | done | by rewrite last_snoc | done].
Qed.

Lemma rate_run_bounded max w calls :
  0 <= max ->
  forall requests,
    (forall k, Z.of_nat (length (default [] (requests !! k))) <= max) ->
    forall k, Z.of_nat (length (default [] ((rate_run max w calls requests).2 !! k))) <= max.
Proof.
  intros Hmax. induction calls as [|[t k0] calls IH]; intros requests Hb; [done|].
  rewrite rate_run_cons. cbn [snd]. apply IH. intros k.
  destruct (userRateLimit_stored max w t k0 requests) as (_ & Hst & Hother).
  cbv zeta in Hst. destruct (decide (k = k0)) as [->|Hne].
  - rewrite Hst. specialize (Hb k0).
    pose proof (length_filter (fun time => t - w < time) (default [] (requests !! k0))).
    destruct (decide (max <= Z.of_nat (length (filter (fun time => t - w < time)
                                                (default [] (requests !! k0))))));
      [lia|]. rewrite length_app. cbn. lia.
  - by rewrite (Hother k Hne).
Qed.

(** X18. The announced waiting time is enough.  In a state reached from
    the empty map, if a call is refused with [retryAfter] [r] (seconds),
    then a call of the same key at any time from [r] seconds later on is
    let through, provided no other call of that key came in between:
    refused calls are not recorded. *)
Theorem rate_limit_retry_after max w calls now k r t' :
  0 < max ->
  (userRateLimit max w now k (rate_run max w calls ∅).2).1 = RateTooMany (Some r) ->
  now + r * 1000 <= t' ->
  (userRateLimit max w t' k
     (userRateLimit max w now k (rate_run max w calls ∅).2).2).1 = RateNext.
Proof.
  intros Hmax Hrej Hlater.
  set (requests := (rate_run max w calls ∅).2) in *.
  assert (Hb : Z.of_nat (length (default [] (requests !! k))) <= max).
  { apply rate_run_bounded; [lia|]. intros k'. rewrite lookup_empty. cbn. lia. }
  destruct (userRateLimit_stored max w now k requests) as (Hres & Hst & _).
  cbv zeta in Hres, Hst. rewrite Hrej in Hres.
  set (cleaned := filter (fun time => now - w < time) (default [] (requests !! k))) in *.
  destruct (decide (max <= Z.of_nat (length cleaned))) as [Hfull|Hfree]; [|done].
  destruct (userRateLimit_stored max w t' k (userRateLimit max w now k requests).2)
    as (Hres' & _). cbv zeta in Hres'. rewrite Hres', Hst.
  destruct cleaned as [|x rest] eqn:Hc; [done|]. cbn in Hres.
  injection Hres as Hr.
  assert (Hlen : Z.of_nat (length (x :: rest)) <= max).
  { rewrite <- Hc. unfold cleaned.
    pose proof (length_filter (fun time => now - w < time) (default [] (requests !! k))).
    lia. }
  rewrite decide_False; [done|].
  assert (Hx : ~ t' - w < x).
  { unfold ceil_seconds in Hr.
    pose proof (Z.mul_div_le (- (x + w - now)) 1000 ltac:(lia)). lia. }
  rewrite filter_cons, decide_False by done.
  pose proof (length_filter (fun time => t' - w < time) rest). cbn in Hlen. lia.
Qed.

(** ** The token and the bidder *)

Lemma split_space_no_space s : has_space s = false -> split_space s = [s].
Proof.
  induction s as [|c s IH]; [done|]. cbn. case_decide; [done|].
  intros Hs. by rewrite (IH Hs).
Qed.

Lemma append_cons c s t : String c s +:+ t = String c (s +:+ t).
Proof. done. Qed.

Lemma split_space_scheme scheme rest :
  has_space scheme = false ->
  split_space (scheme +:+ String " " rest) = scheme :: split_space rest.
Proof.
  induction scheme as [|c s IH].
  - intros _. change ("" +:+ String " " rest) with (String " " rest). cbn.
    by rewrite decide_True.
  - rewrite append_cons. cbn. case_decide; [done|]. intros Hs. by rewrite (IH Hs).
Qed.

(** X19. Which part of the header is the token.  [authenticateToken]
    verifies the second space-separated word of the [Authorization]
    header and does not look at the first: for any first word without a
    space and any non-empty token without a space, the outcome is what
    [jwt.verify] and the users table give for that token, and only a
    user who exists and is active passes.  Without a header, or with a
    header of one word, the answer is "access token required". *)
Theorem authenticate_token_second_word verify scheme token users :
  has_space scheme = false -> has_space token = false -> token <> EmptyString ->
  authenticateToken verify (Some (scheme +:+ String " " token)) users =
    match verify token with
    | JwtDecoded userId =>
        match users !! userId with
        | None => UserNotFound
        | Some u => if user_is_active u then AuthNext userId u else AccountDeactivated
        end
    | JsonWebTokenError => InvalidToken
    | TokenExpiredError => TokenExpired
    | JwtOtherError => AuthenticationError
    end /\
  authenticateToken verify None users = AccessTokenRequired /\
  authenticateToken verify (Some scheme) users = AccessTokenRequired.
Proof.
  intros Hs Ht Hne. unfold authenticateToken, bearer_token. split; [|split].
  - rewrite (split_space_scheme _ _ Hs), (split_space_no_space _ Ht). cbn.
    by rewrite decide_False.
  - done.
  - by rewrite (split_space_no_space _ Hs).
Qed.

Lemma clear_winning_bidder id (l : list bid) :
  bidder_id <$> (clear_winning id <$> l) = bidder_id <$> l.
Proof.
  rewrite <- list_fmap_compose. apply list_fmap_ext. intros _ b _. cbn.
  unfold clear_winning. by case_decide.
Qed.

Lemma place_bid_bidders now r s :
  bidder_id <$> bids (place_bid now r s).2 = bidder_id <$> bids s \/
  bidder_id <$> bids (place_bid now r s).2 = (bidder_id <$> bids s) ++ [bidderId r].
Proof.
  destruct (place_bid_cases now r s) as [[_ ->]|(a & Had & ->)]; [by left|].
  destruct (buy_now_applies r a) as [p|].
  { right. cbn. by rewrite fmap_app. }
  destruct (normal_bid_cases now r a s)
    as [->|(p & w & s1 & amt & mx & _ & _ & _ & Hn)]; [by left|].
  cbn zeta in Hn. right.
  pose proof (normal_bid_bids _ _ _ _ _ _ _ _ _ (admitted_valid _ _ _ _ Had) Hn) as Hb.
  rewrite Hn. cbn [snd].
  destruct (current_highest_bid s (auctionId r)) as [c|]; [case_decide|];
    destruct Hb as (_ & _ & ->); rewrite fmap_app; try done.
  by rewrite clear_winning_bidder.
Qed.

(** X20. A bid is booked to the token's user.  If the route
    [POST /api/bids] is refused at authentication, the store and the
    cache are as before.  Otherwise the token decodes to a user who
    exists and is active, the bidder column of the rows that were there
    is unchanged, and at most one row is appended, with that user as
    bidder: the request body cannot name another bidder. *)
Theorem bid_is_booked_to_token_user verify authHeader users now body sc :
  match (post_bids_route verify authHeader users now body sc).1 with
  | NotAuthenticated why =>
      (post_bids_route verify authHeader users now body sc).2 = sc /\
      (forall uid u, why <> AuthNext uid u)
  | Answered resp evs =>
      exists token uid u,
        bearer_token authHeader = Some token /\ verify token = JwtDecoded uid /\
        users !! uid = Some u /\ user_is_active u = true /\
        (bidder_id <$> bids (post_bids_route verify authHeader users now body sc).2.1
           = bidder_id <$> bids sc.1 \/
         bidder_id <$> bids (post_bids_route verify authHeader users now body sc).2.1
           = (bidder_id <$> bids sc.1) ++ [uid])
  end.
Proof.
  unfold post_bids_route, authenticateToken.
  destruct (bearer_token authHeader) as [token|]; [|done].
  destruct (verify token) as [uid| | |] eqn:Hv; try done.
  destruct (users !! uid) as [u|] eqn:Hu; [|done].
  destruct (user_is_active u) eqn:Hact; [|done].
  set (r := {| auctionId := body_auctionId body; bidAmount := body_amount body;
               maxBid := body_maxBid body; bidderId := uid |}).
  pose proof (place_bid_bidders now r sc.1) as Hb.
  unfold post_bid. destruct (place_bid now r sc.1) as [[resp evs] s']. cbn in *.
  exists token, uid, u. done.
Qed.

(** ** Reconnecting to Redis *)

(** X21. The reconnection delay.  [retry_strategy] decides in this
    order: a refused connection ends the retries at once with an error,
    whatever the attempt number and the time spent; otherwise more than
    an hour of retrying ends them with an error; otherwise an attempt
    number above ten ends them without one; otherwise the client waits a
    hundred milliseconds times the attempt number, which is at most one
    second, so the cap of three seconds never applies. *)
Theorem retry_delay_is_linear options :
  (retry_error_code options = Some "ECONNREFUSED" ->
   retry_strategy options = RetryError "Redis server connection refused") /\
  match retry_strategy options with
  | RetryAfter ms =>
      ms = attempt options * 100 /\ attempt options <= 10 /\ ms <= 1000 /\
      total_retry_time options <= 3600000 /\
      retry_error_code options <> Some "ECONNREFUSED"
  | RetryStop =>
      10 < attempt options /\ total_retry_time options <= 3600000 /\
      retry_error_code options <> Some "ECONNREFUSED"
  | RetryError message =>
      (retry_error_code options = Some "ECONNREFUSED" /\
       message = "Redis server connection refused") \/
      (retry_error_code options <> Some "ECONNREFUSED" /\
       3600000 < total_retry_time options /\
       message = "Retry time exhausted")
  end.
Proof.
  unfold retry_strategy. split.
  - intros Hc. by rewrite decide_True.
  - repeat case_decide.
    + by left.
    + right. repeat split; done || lia.
    + repeat split; done || lia.
    + repeat split; done || lia.
Qed.

(** ** Auction rooms *)

Lemma size_zero_empty (X : gset (Z + string)) : size X = 0%nat <-> X = ∅.
Proof. rewrite size_empty_iff. by unfold_leibniz. Qed.

Lemma viewers_add_nonempty (v : Z + string) (X : gset (Z + string)) : {[v]} ∪ X <> ∅.
Proof.
  intros H. assert (Hv : v ∈ {[v]} ∪ X).
  { apply elem_of_union. left. by apply elem_of_singleton. }
  rewrite H in Hv. by apply not_elem_of_empty in Hv.
Qed.

Lemma viewers_remove_notin (v : Z + string) (X : gset (Z + string)) : v ∉ X ∖ {[v]}.
Proof. rewrite elem_of_difference, elem_of_singleton. tauto. Qed.

Lemma viewers_add_remove (v : Z + string) (X : gset (Z + string)) :
  v ∉ X -> ({[v]} ∪ X) ∖ {[v]} = X.
Proof.
  intros Hv. apply set_eq. intros x.
  rewrite elem_of_difference, elem_of_union, elem_of_singleton. split.
  - tauto.
  - intros Hx. split; [tauto|]. by intros ->.
Qed.

Lemma viewers_remove_id (v : Z + string) (X : gset (Z + string)) :
  v ∉ X -> X ∖ {[v]} = X.
Proof.
  intros Hv. apply set_eq. intros x.
  rewrite elem_of_difference, elem_of_singleton. split; [tauto|].
  intros Hx. split; [done|]. by intros ->.
Qed.

Lemma viewers_add_twice (v : Z + string) (X : gset (Z + string)) :
  {[v]} ∪ ({[v]} ∪ X) = {[v]} ∪ X.
Proof. by rewrite (assoc_L (∪)), (idemp_L (∪)). Qed.

Lemma room_step_no_empty rooms o :
  (forall id vs, rooms !! id = Some vs -> vs <> ∅) ->
  forall id vs, room_step rooms o !! id = Some vs -> vs <> ∅.
Proof.
  intros Hinv id vs. destruct o as [id0 v|id0 v|v]; cbn.
  - destruct (decide (id0 = id)) as [->|Hne].
    + rewrite lookup_insert_eq. intros [= <-]. apply viewers_add_nonempty.
    + rewrite lookup_insert_ne by done. apply Hinv.
  - unfold leave_auction. destruct (rooms !! id0) as [vs0|] eqn:H0; [|apply Hinv].
    case_decide as Hz; cbn.
    + destruct (decide (id0 = id)) as [->|Hne].
      * by rewrite lookup_delete_eq.
      * rewrite lookup_delete_ne by done. apply Hinv.
    + destruct (decide (id0 = id)) as [->|Hne].
      * rewrite lookup_insert_eq. intros [= <-]. by rewrite <- size_zero_empty.
      * rewrite lookup_insert_ne by done. apply Hinv.
  - rewrite lookup_omap. destruct (rooms !! id) as [vs0|] eqn:H0; [|done]. cbn.
    unfold disconnect_room. case_decide.
    + case_decide as Hz; [done|]. intros [= <-]. by rewrite <- size_zero_empty.
    + intros [= <-]. by apply (Hinv id).
Qed.

(** X22. No auction room is kept empty.  After any sequence of joins,
    leaves and disconnects, starting with no room, every room in
    [auctionRooms] has at least one viewer: a room is dropped when its
    last viewer leaves or disconnects. *)
Theorem rooms_are_never_empty ops id vs :
  foldl room_step ∅ ops !! id = Some vs -> vs <> ∅.
Proof.
  revert id vs. induction ops as [|o ops IH] using rev_ind; intros id vs.
  - cbn. by rewrite lookup_empty.
  - rewrite foldl_snoc. by apply room_step_no_empty.
Qed.

(** X23. A disconnect removes the viewer from every room and nobody
    else: afterwards the viewers tracked for each auction are those of
    before without the one who left, and each room the viewer was in, and
    no other, is told the number of viewers that remain. *)
Theorem disconnect_removes_viewer_everywhere v rooms id :
  viewers_of (disconnect v rooms).2 id = (viewers_of rooms id) ∖ {[v]} /\
  (disconnect v rooms).1 !! id =
    (if decide (v ∈ viewers_of rooms id)
     then Some (size (viewers_of (disconnect v rooms).2 id)) else None).
Proof.
  unfold viewers_of, disconnect. cbn. rewrite lookup_omap, lookup_fmap.
  rewrite map_lookup_filter.
  destruct (rooms !! id) as [vs|] eqn:Hvs; cbn.
  - unfold disconnect_room. destruct (decide (v ∈ vs)) as [Hin|Hnot].
    + rewrite option_guard_True by done. cbn.
      case_decide as Hz; cbn; [|done].
      apply size_zero_empty in Hz. rewrite Hz. by rewrite size_empty.
    + rewrite option_guard_False by done. cbn.
      split; [by rewrite viewers_remove_id | done].
  - split.
    + symmetry. apply viewers_remove_id, not_elem_of_empty.
    + rewrite decide_False; [done | apply not_elem_of_empty].
Qed.

(** X24. Joining and leaving.  The count announced on a join is the
    number of different viewers then tracked for the auction, the joiner
    included, and joining twice is the same as joining once.  If every
    room has a viewer and [v] is not yet tracked for the auction, joining
    and then leaving puts [auctionRooms] back as it was.  A leave removes
    the viewer from the auction even after several joins: a user with two
    sockets in a room is no longer tracked once one of them leaves. *)
Theorem join_then_leave v id rooms :
  (join_auction id v rooms).1 =
    [auction_joined id; viewer_joined id (size ({[v]} ∪ viewers_of rooms id))] /\
  (join_auction id v (join_auction id v rooms).2).2 = (join_auction id v rooms).2 /\
  (v ∉ viewers_of (leave_auction id v (join_auction id v rooms).2).2 id) /\
  ((forall i vs, rooms !! i = Some vs -> vs <> ∅) -> v ∉ viewers_of rooms id ->
   (leave_auction id v (join_auction id v rooms).2).2 = rooms).
Proof.
  unfold viewers_of, join_auction, leave_auction. cbn.
  rewrite !lookup_insert_eq. cbn. split; [done|]. split; [|split].
  - rewrite insert_insert_eq. f_equal. apply viewers_add_twice.
  - case_decide; cbn.
    + rewrite lookup_delete_eq. apply not_elem_of_empty.
    + rewrite lookup_insert_eq. cbn. apply viewers_remove_notin.
  - intros Hinv Hv. rewrite (viewers_add_remove v _ Hv).
    destruct (rooms !! id) as [vs|] eqn:Hvs; cbn in *.
    + rewrite decide_False.
      * cbn. rewrite insert_insert_eq. by apply insert_id.
      * rewrite size_zero_empty. by apply (Hinv id).
    + rewrite size_empty, decide_True by done. cbn.
      rewrite delete_insert_eq. by apply delete_id.
Qed.

(** ** Creating a listing *)

Lemma numeric_or_null_Some x y :
  numeric_or_null x = Some y -> cents <$> y = x.
Proof.
  destruct x as [z|]; cbn; [|by intros [= <-]].
  destruct (numeric z) as [d|] eqn:Hd; [|done].
  apply numeric_inv in Hd. cbn. by intros [= <-]; cbn; rewrite Hd.
Qed.

Lemma new_listing_Some now uid f a :
  new_listing now uid f = Some a ->
  seller_id a = uid /\ starting_price a = form_startingPrice f /\
  current_price a = form_startingPrice f /\
  reserve_price a = form_reservePrice f /\
  buy_now_price a = form_buyNowPrice f /\
  status a = Active /\
  end_time a = now + form_durationHours f * 60 * 60 * 1000 /\
  bid_count a = 0 /\ winner_id a = None.
Proof.
  unfold new_listing.
  destruct (numeric (form_startingPrice f)) as [start|] eqn:Hs; [|done].
  destruct (numeric_or_null (form_reservePrice f)) as [reserve|] eqn:Hr; [|done].
  destruct (numeric_or_null (form_buyNowPrice f)) as [buyNow|] eqn:Hb; [|done].
  destruct (numeric (default 0 (form_shippingCost f))) as [ship|]; [|done].
  cbn. intros [= <-].
  apply numeric_inv in Hs. apply numeric_or_null_Some in Hr, Hb.
  unfold starting_price, current_price, reserve_price, buy_now_price. cbn.
  repeat split; done.
Qed.

Lemma create_auction_Created now req_user f categories new_id s id a s' :
  create_auction now req_user f categories new_id s = (Created id a, s') ->
  exists uid u,
    req_user = Some (uid, u) /\ role u ∈ [seller; admin; moderator] /\
    valid_form f = true /\ form_files f <> 0%nat /\
    given_below (form_reservePrice f) (form_startingPrice f) = false /\
    given_below (form_buyNowPrice f) (form_startingPrice f) = false /\
    categories !! form_categoryId f = Some true /\
    id = new_id /\ new_listing now uid f = Some a /\
    auctions s' = <[new_id := a]> (auctions s) /\
    bids s' = bids s.
Proof.
  unfold create_auction, requireSeller, requireRole.
  destruct req_user as [[uid u]|]; cbn; [|discriminate].
  destruct (decide (role u ∈ [seller; admin; moderator])) as [Hr|Hr]; [|discriminate].
  destruct (valid_form f) eqn:Hv; cbn; [|discriminate].
  destruct (decide (form_files f = 0%nat)) as [Hf|Hf]; [discriminate|].
  destruct (given_below (form_reservePrice f) _) eqn:Hrp; [discriminate|].
  destruct (given_below (form_buyNowPrice f) _) eqn:Hbp; [discriminate|].
  destruct (decide (categories !! form_categoryId f = Some true)) as [Hc|Hc];
    [|discriminate].
  destruct (new_listing now uid f) as [a0|] eqn:Hn; [|discriminate].
  intros [= <- <- <-]. exists uid, u. cbn. repeat split; done.
Qed.

Lemma valid_form_bounds f :
  valid_form f = true ->
  1 <= form_startingPrice f /\ 1 <= form_durationHours f <= 168.
Proof.
  unfold valid_form. rewrite !andb_true_iff, !Z.leb_le. tauto.
Qed.

(** A reserve or buy-now price that passes the handler's comparison and
    fits its column is not below the starting price. *)
Lemma given_below_false x start :
  given_below x start = false -> Z.abs start < 10000000000 ->
  forall p, x = Some p -> Z.abs p < 10000000000 -> start <= p.
Proof.
  intros H Hstart p -> Hp. cbn in H.
  rewrite parseFloat_cents_lt in H by (left; split; lia).
  by apply Z.ltb_ge in H.
Qed.

Lemma created_row_selectable now req_user f categories new_id s id a s' now' :
  create_auction now req_user f categories new_id s = (Created id a, s') ->
  now' < end_time a ->
  select_active_auction now' s' id = Some a /\
  current_price a = form_startingPrice f /\
  buy_now_price a = form_buyNowPrice f.
Proof.
  intros Hc Hnow.
  destruct (create_auction_Created _ _ _ _ _ _ _ _ _ Hc)
    as (uid & u & _ & _ & _ & _ & _ & _ & _ & -> & Ha & Hs' & _).
  apply new_listing_Some in Ha as (_ & _ & Hcp & _ & Hbn & Hst & _).
  unfold select_active_auction. rewrite Hs', lookup_insert_eq.
  by rewrite decide_True.
Qed.

(** X25. A listing that the creation route accepts is open for bidding:
    it is active, has no bids and no winner, its current price is its
    starting price (at least 0.01), it runs for between one hour and one
    week from the request, a reserve or buy-now price is not below the
    starting price, its seller is the requester and is not a plain buyer;
    the row is stored under the new id and no other row, and no bid, is
    touched. *)
Theorem created_listing_is_open now req_user f categories new_id s id a s' :
  create_auction now req_user f categories new_id s = (Created id a, s') ->
  status a = Active /\ bid_count a = 0 /\ winner_id a = None /\
  current_price a = starting_price a /\ 1 <= starting_price a /\
  now + 3600000 <= end_time a <= now + 604800000 /\
  (forall p, reserve_price a = Some p -> starting_price a <= p) /\
  (forall p, buy_now_price a = Some p -> starting_price a <= p) /\
  (exists u, req_user = Some (seller_id a, u) /\ role u <> buyer) /\
  auctions s' !! id = Some a /\
  (forall j, j <> id -> auctions s' !! j = auctions s !! j) /\
  bids s' = bids s.
Proof.
  intros Hc.
  destruct (create_auction_Created _ _ _ _ _ _ _ _ _ Hc)
    as (uid & u & -> & Hr & Hv & _ & Hrp & Hbp & _ & -> & Hn & Hs' & Hb).
  destruct (valid_form_bounds _ Hv) as (Hsp & Hd).
  apply new_listing_Some in Hn
    as (Hsel & Hst & Hcp & Hres & Hbn & Hact & Hend & Hcnt & Hwin).
  pose proof (cents_range (col_starting_price a)) as Hrs.
  fold (starting_price a) in Hrs.
  repeat split; try done; try lia.
  - intros p Hp. rewrite Hst. apply (given_below_false _ _ Hrp); [lia| |].
    + by rewrite <- Hres.
    + unfold reserve_price in Hp. destruct (col_reserve_price a) as [d|]; [|done].
      injection Hp as <-. apply cents_range.
  - intros p Hp. rewrite Hst. apply (given_below_false _ _ Hbp); [lia| |].
    + by rewrite <- Hbn.
    + unfold buy_now_price in Hp. destruct (col_buy_now_price a) as [d|]; [|done].
      injection Hp as <-. apply cents_range.
  - exists u. rewrite Hsel. split; [done|]. intros Hbuyer. rewrite Hbuyer in Hr.
    rewrite !elem_of_cons, elem_of_nil in Hr. intuition discriminate.
  - by rewrite Hs', lookup_insert_eq.
  - intros j Hj. by rewrite Hs', lookup_insert_ne.
Qed.

(** An admitted bid whose amounts fit the columns is accepted. *)
Lemma admitted_accepted now r s a :
  admitted now r s a ->
  bidAmount r < 10000000000 -> newMaxBid r < 10000000000 ->
  rejected (place_bid now r s).1.1 = false.
Proof.
  intros Had Hamt Hmax. rewrite (place_bid_admitted _ _ _ _ Had).
  destruct (buy_now_applies r a) as [price|]; [done|].
  pose proof (admitted_valid _ _ _ _ Had) as Hv.
  apply valid_request_pos in Hv as [Hpos Hmpos].
  destruct (numeric_Some (bidAmount r)) as (amt & Hn1 & _); [lia|].
  destruct (numeric_Some (newMaxBid r)) as (mx & Hn2 & _); [lia|].
  assert (is_Some (proxy_bidding r s)) as [[[p w] s1] Hpb].
  { destruct (current_highest_bid s (auctionId r)) as [c|] eqn:Hc.
    - pose proof (currentMaxBid_range c) as Hr.
      destruct (Z.le_gt_cases (newMaxBid r) (currentMaxBid c)) as [Hle|Hgt].
      + rewrite (proxy_bidding_absorbed r s c Hmpos Hc Hle).
        destruct (numeric_Some (Z.min (newMaxBid r + minBidIncrement) (currentMaxBid c)))
          as (d & -> & _); [unfold minBidIncrement; lia | by eexists].
      + rewrite (proxy_bidding_new_winner r s c Hc Hgt).
        destruct (numeric_Some (Z.min (currentMaxBid c + minBidIncrement) (newMaxBid r)))
          as (d & -> & _); [unfold minBidIncrement; lia | by eexists].
    - rewrite (proxy_bidding_first r s Hpos Hc), Hn1. by eexists. }
  unfold normal_bid. by rewrite Hpb, Hn1, Hn2.
Qed.

(** X26. The first bid on a fresh listing: a well-formed bid by someone
    other than the seller, made before the listing runs out, is refused
    with the minimum "starting price plus 1.00" when it is below that sum
    (so a bid of exactly the starting price is never taken); it is not
    refused for being too low when it is above that sum, and it is
    accepted then if its amount and maximum fit their columns (below
    100,000,000.00).  At exactly that sum the handler's floating-point
    comparison decides. *)
Theorem first_bid_needs_start_plus_increment
    now req_user f categories new_id s id a s' now' r :
  create_auction now req_user f categories new_id s = (Created id a, s') ->
  auctionId r = id -> valid_request r = true ->
  bidderId r <> seller_id a -> now' < end_time a ->
  (bidAmount r < form_startingPrice f + 100 ->
   place_bid now' r s' = (BidTooLow (form_startingPrice f + 100), [], s')) /\
  (form_startingPrice f + 100 < bidAmount r ->
   (forall m, (place_bid now' r s').1.1 <> BidTooLow m) /\
   (bidAmount r < 10000000000 -> newMaxBid r < 10000000000 ->
    rejected (place_bid now' r s').1.1 = false)).
Proof.
  intros Hc Hid Hv Hne Hnow.
  destruct (created_row_selectable _ _ _ _ _ _ _ _ _ now' Hc Hnow) as (Hsel & Hcp & _).
  pose proof (valid_request_pos r Hv) as [Hpos _].
  split; intros Hamt.
  - unfold place_bid. rewrite Hv, Hid, Hsel. cbn [negb].
    rewrite decide_False by congruence.
    rewrite below_required_minimum_low, requiredMinBid_toFixed_eq
      by (rewrite ?Hcp; done).
    by rewrite Hcp.
  - assert (admitted now' r s' a) as Had.
    { split; [done | by rewrite Hid | congruence |].
      apply below_required_minimum_high. by rewrite Hcp. }
    split.
    + intros m. rewrite (place_bid_admitted _ _ _ _ Had).
      destruct (buy_now_applies r a) as [price|]; [done|].
      destruct (normal_bid_cases now' r a s')
        as [->|(p0 & w0 & s1 & amt & mx & _ & _ & _ & ->)]; done.
    + by apply (admitted_accepted _ _ _ a).
Qed.

(** X27. The creation route takes a buy-now price equal to the starting
    price (or up to 1.00 above it).  On such a fresh listing no ordinary
    bid is possible: every bid that is not refused buys the item, at the
    buy-now price and not at the amount offered. *)
Theorem buy_now_near_start_only_sells
    now req_user f categories new_id s id a s' now' r p :
  create_auction now req_user f categories new_id s = (Created id a, s') ->
  buy_now_price a = Some p -> p <= starting_price a + 100 ->
  auctionId r = id ->
  rejected (place_bid now' r s').1.1 = true \/
  (place_bid now' r s').1.1 = BuyNowSuccessful (bidderId r) p.
Proof.
  intros Hc Hbn Hp Hid.
  destruct (create_auction_Created _ _ _ _ _ _ _ _ _ Hc)
    as (uid & u & _ & _ & _ & _ & _ & _ & _ & -> & Ha & Hs' & _).
  apply new_listing_Some in Ha as (_ & Hst & Hcp & _).
  destruct (place_bid_cases now' r s') as [[Hrej _]|(a0 & Had & ->)]; [by left|].
  right.
  pose proof (admitted_amount_le _ _ _ _ Had) as Hle.
  pose proof Had as [Hv Hsel _ _].
  apply select_active_auction_Some in Hsel as (Ha0 & _ & _).
  rewrite Hid, Hs', lookup_insert_eq in Ha0. injection Ha0 as <-.
  apply valid_request_pos in Hv as [Hpos _].
  rewrite buy_now_applies_cents by done.
  unfold buy_now_price in Hbn.
  destruct (col_buy_now_price a) as [price|]; [|done].
  cbn in Hbn. injection Hbn as <-.
  unfold minBidIncrement in *. rewrite decide_True by lia. done.
Qed.

(** ** The handler's comparison at the minimum itself *)

(** X30. The minimum-bid test is made in floating point.  Whatever the
    auction and the (well-formed) amount, a bid below the current price
    plus 1.00 does not pass it and a bid above that sum passes it.  A bid
    of exactly that sum passes at some prices and not at others: at a
    price of 10.00 a bid of 11.00 passes, while at a price of 1.03 the
    sum 1.03 + 1.00 comes out above 2.03, and a bid of 2.03 is refused
    with the message that the bid must be at least 2.03. *)
Theorem minimum_bid_test_at_the_boundary :
  (forall r a, valid_request r = true ->
     (bidAmount r < current_price a + 100 -> below_required_minimum r a = true) /\
     (current_price a + 100 < bidAmount r -> below_required_minimum r a = false)) /\
  rejected (place_bid 0 (bid_on7 2 1100 None) (shop (listing 1000 None None))).1.1
    = false /\
  place_bid 0 (bid_on7 2 203 None) (shop (listing 103 None None))
    = (BidTooLow 203, [], shop (listing 103 None None)).
Proof.
  split; [|split].
  - intros r a [Hpos _]%valid_request_pos. split; intros H.
    + by apply below_required_minimum_low.
    + by apply below_required_minimum_high.
  - vm_compute. reflexivity.
  - vm_compute. reflexivity.
Qed.


(** ** The properties at the scenarios *)

Lemma bid_list_served_from_cache_witness :
  (get_auction_bids 1000 (Some 7) opening_db (Some ∅)).1 =
    BidsJson (BidsBody (query_auction_bids opening_db 7)) /\
  get_auction_bids 20000 (Some 7) raised_db
    (run_posts (db_store opening_db,
                (get_auction_bids 1000 (Some 7) opening_db (Some ∅)).2)
               [raise_of_3]).2 =
    ((get_auction_bids 1000 (Some 7) opening_db (Some ∅)).1,
     (run_posts (db_store opening_db,
                 (get_auction_bids 1000 (Some 7) opening_db (Some ∅)).2)
                [raise_of_3]).2).
Proof.
  apply (bid_list_served_from_cache 1000 20000 7 opening_db ∅ [raise_of_3] raised_db);
    vm_compute; reflexivity.
Defined.

Lemma rate_limit_window_bound_witness :
  (rate_run 2 1000 (burst ++ [(1050, inl 5)]) ∅).1 =
    [RateNext; RateNext; RateTooMany (Some 1); RateNext] /\
  Z.of_nat (length (filter (fun t => 1050 - 1000 < t)
                      (admitted_times (inl 5) (burst ++ [(1050, inl 5)])
                         (rate_run 2 1000 (burst ++ [(1050, inl 5)]) ∅).1))) <= 2.
Proof.
  split; [vm_compute; reflexivity|].
  apply (rate_limit_window_bound 2 1000 0 burst 1050 (inl 5)).
  - reflexivity.
  - cbn. lia.
  - vm_compute. reflexivity.
Defined.

Lemma rate_limit_retry_after_witness :
  (userRateLimit 2 60000 200 (inl 5) (rate_run 2 60000 [(0, inl 5); (100, inl 5)] ∅).2).1
    = RateTooMany (Some 60) /\
  (userRateLimit 2 60000 60200 (inl 5)
     (userRateLimit 2 60000 200 (inl 5)
        (rate_run 2 60000 [(0, inl 5); (100, inl 5)] ∅).2).2).1 = RateNext.
Proof.
  split; [vm_compute; reflexivity|].
  apply (rate_limit_retry_after 2 60000 [(0, inl 5); (100, inl 5)] 200 (inl 5) 60 60200).
  - reflexivity.
  - vm_compute. reflexivity.
  - vm_compute. discriminate.
Defined.

Lemma authenticate_token_second_word_witness :
  authenticateToken verify_abc (Some "Basic abc") people = AuthNext 2 bo /\
  authenticateToken verify_abc None people = AccessTokenRequired /\
  authenticateToken verify_abc (Some "Basic") people = AccessTokenRequired.
Proof.
  exact (authenticate_token_second_word verify_abc "Basic" "abc" people
           eq_refl eq_refl ltac:(discriminate)).
Defined.

Lemma rooms_are_never_empty_witness :
  exists vs, foldl room_step ∅ visits !! 7 = Some vs /\ (inl 3 ∈ vs /\ vs <> ∅).
Proof.
  eexists. split; [reflexivity|].
  split; [|apply (rooms_are_never_empty visits 7); reflexivity].
  vm_compute. reflexivity.
Defined.

Lemma gpu_created :
  create_auction 1000 (Some a_seller) gpu_form {[2 := true]} 1 no_tables =
    (Created 1 gpu_listing, gpu_shop).
Proof. vm_compute. reflexivity. Qed.

Lemma created_listing_is_open_witness :
  status gpu_listing = Active /\ bid_count gpu_listing = 0 /\
  winner_id gpu_listing = None /\
  current_price gpu_listing = starting_price gpu_listing /\
  1 <= starting_price gpu_listing /\
  1000 + 3600000 <= end_time gpu_listing <= 1000 + 604800000 /\
  (forall p, reserve_price gpu_listing = Some p -> starting_price gpu_listing <= p) /\
  (forall p, buy_now_price gpu_listing = Some p -> starting_price gpu_listing <= p) /\
  (exists u, Some a_seller = Some (seller_id gpu_listing, u) /\ role u <> buyer) /\
  auctions gpu_shop !! 1 = Some gpu_listing /\
  (forall j, j <> 1 -> auctions gpu_shop !! j = auctions no_tables !! j) /\
  bids gpu_shop = bids no_tables.
Proof.
  exact (created_listing_is_open 1000 (Some a_seller) gpu_form {[2 := true]} 1
           no_tables 1 gpu_listing gpu_shop gpu_created).
Defined.

Lemma first_bid_needs_start_plus_increment_witness :
  place_bid 2000 (bid_on_gpu 20000) gpu_shop = (BidTooLow 20100, [], gpu_shop) /\
  rejected (place_bid 2000 (bid_on_gpu 20200) gpu_shop).1.1 = false.
Proof.
  split.
  - apply (first_bid_needs_start_plus_increment 1000 (Some a_seller) gpu_form
             {[2 := true]} 1 no_tables 1 gpu_listing gpu_shop 2000 (bid_on_gpu 20000)
             gpu_created);
      [reflexivity | vm_compute; reflexivity | discriminate | reflexivity |
       reflexivity].
  - apply (first_bid_needs_start_plus_increment 1000 (Some a_seller) gpu_form
             {[2 := true]} 1 no_tables 1 gpu_listing gpu_shop 2000 (bid_on_gpu 20200)
             gpu_created);
      [reflexivity | vm_compute; reflexivity | discriminate | reflexivity |
       reflexivity | reflexivity | reflexivity].
Defined.

Lemma buy_now_near_start_only_sells_witness :
  (place_bid 2000 (bid_on_gpu 30000) gpu_shop).1.1 = BuyNowSuccessful 9 20000.
Proof.
  destruct (buy_now_near_start_only_sells 1000 (Some a_seller) gpu_form {[2 := true]} 1
              no_tables 1 gpu_listing gpu_shop 2000 (bid_on_gpu 30000) 20000
              gpu_created ltac:(vm_compute; reflexivity) ltac:(discriminate) eq_refl)
    as [H|H].
  - vm_compute in H. discriminate H.
  - exact H.
Defined.


(** ** The scheduler's jobs *)

Lemma foldl_set_started_lookup b l tasks i :
  foldl (set_started b) tasks l !! i =
    if decide (i ∈ l) then (fun t : string * bool => (t.1, b)) <$> tasks !! i
    else tasks !! i.
Proof.
  revert tasks. induction l as [|j l IH]; intros tasks; cbn [foldl].
  - rewrite decide_False; [done | apply not_elem_of_nil].
  - rewrite IH. unfold set_started.
    destruct (decide (i = j)) as [->|Hne].
    + rewrite list_lookup_alter.
      rewrite (decide_True (P := j ∈ j :: l)) by apply list_elem_of_here.
      rewrite (decide_True (P := j = j)) by done.
      destruct (tasks !! j) as [t|]; cbn; by destruct (decide (j ∈ l)).
    + rewrite list_lookup_alter.
      rewrite (decide_False (P := j = i)) by done.
      destruct (decide (i ∈ l)) as [Hin|Hnin].
      * rewrite decide_True; [done | by apply list_elem_of_further].
      * rewrite decide_False; [done|].
        rewrite elem_of_cons. tauto.
Qed.

Lemma jobs_from_positions n i :
  i ∈ (snd <$> map_to_list (jobs_from n)) <-> (n <= i < n + 7)%nat.
Proof.
  rewrite list_elem_of_fmap. split.
  - intros ([name j] & -> & Hin). apply elem_of_map_to_list in Hin. cbn.
    unfold jobs_from in Hin.
    repeat (apply lookup_insert_Some in Hin as [[_ <-]|[_ Hin]]; [lia|]).
    by rewrite lookup_empty in Hin.
  - intros Hi.
    assert (exists name, jobs_from n !! name = Some i) as [name Hname].
    { unfold jobs_from.
      destruct (decide (i = n)) as [->|]; [by exists "endAuctions"|].
      destruct (decide (i = n + 1)%nat) as [->|]; [by exists "endingReminders"|].
      destruct (decide (i = n + 2)%nat) as [->|]; [by exists "watchlistDigest"|].
      destruct (decide (i = n + 3)%nat) as [->|]; [by exists "cleanupNotifications"|].
      destruct (decide (i = n + 4)%nat) as [->|]; [by exists "cleanupSessions"|].
      destruct (decide (i = n + 5)%nat) as [->|]; [by exists "updateStats"|].
      destruct (decide (i = n + 6)%nat) as [->|]; [by exists "proxyBids"|]. lia. }
    exists (name, i). split; [done|]. by apply elem_of_map_to_list.
Qed.

Lemma schedule_all old :
  foldl schedule_job (∅, old) job_table =
    (jobs_from (length old),
     old ++ ((fun job : string * string => (job.2, false)) <$> job_table)).
Proof.
  unfold job_table, jobs_from. cbn [foldl fmap list_fmap].
  unfold schedule_job. cbn [fst snd].
  rewrite !length_app. cbn [length]. rewrite <- !app_assoc. cbn [app].
  f_equal. repeat (f_equal; try lia).
Qed.

Lemma none_started_filter (tasks : list (string * bool)) :
  Forall (fun t : string * bool => t.2 = false) tasks ->
  filter (fun t : string * bool => t.2 = true) tasks = [].
Proof.
  induction 1 as [|t tasks Ht _ IH]; [done|].
  rewrite filter_cons, decide_False by congruence. exact IH.
Qed.

Lemma start_all old :
  for_each_job true (jobs_from (length old))
    (old ++ ((fun job : string * string => (job.2, false)) <$> job_table)) =
  old ++ ((fun job : string * string => (job.2, true)) <$> job_table).
Proof.
  apply list_eq. intros i. unfold for_each_job. rewrite foldl_set_started_lookup.
  pose proof (jobs_from_positions (length old) i) as Hpos.
  destruct (decide (i < length old)%nat) as [Hlt|Hge].
  - rewrite decide_False by (rewrite Hpos; lia).
    by rewrite !lookup_app_l by done.
  - rewrite !lookup_app_r by lia.
    destruct (decide (i ∈ _)) as [Hin|Hnin].
    + rewrite !list_lookup_fmap.
      by destruct (job_table !! (i - length old)%nat).
    + rewrite !(proj2 (lookup_ge_None _ _)); [done | |];
        rewrite length_fmap; cbn; rewrite Hpos in Hnin; lia.
Qed.

Lemma stop_all old :
  Forall (fun t : string * bool => t.2 = false) old ->
  Forall (fun t : string * bool => t.2 = false)
    (for_each_job false (jobs_from (length old))
       (old ++ ((fun job : string * string => (job.2, true)) <$> job_table))).
Proof.
  intros Hold. apply Forall_lookup. intros i t. unfold for_each_job.
  rewrite foldl_set_started_lookup.
  pose proof (jobs_from_positions (length old) i) as Hpos.
  destruct (decide (i ∈ _)) as [Hin|Hnin].
  - destruct (_ !! i) as [t0|]; cbn; [|done]. by intros [= <-].
  - destruct (decide (i < length old)%nat) as [Hlt|Hge].
    + rewrite lookup_app_l by done. intros Ht.
      by apply (proj1 (Forall_lookup _ _) Hold i t).
    + rewrite lookup_app_r by lia.
      rewrite (proj2 (lookup_ge_None _ _)); [done|].
      rewrite length_fmap. cbn. rewrite Hpos in Hnin. lia.
Qed.

Lemma scheduler_step_inv s c : scheduler_inv s -> scheduler_inv (scheduler_step s c).
Proof.
  unfold scheduler_inv. destruct s as [jobs tasks running], c;
    unfold scheduler_step, start, stop;
    cbn [isRunning sched_jobs cron_tasks]; destruct running;
    cbn [negb isRunning sched_jobs cron_tasks]; try done.
  - intros [-> Hnone]. exists tasks. rewrite schedule_all. cbn [fst snd].
    by rewrite start_all.
  - intros (old & Hold & -> & ->). split; [done|]. by apply stop_all.
Qed.

Lemma scheduler_run_inv calls : scheduler_inv (foldl scheduler_step new_scheduler calls).
Proof.
  induction calls as [|c calls IH] using rev_ind.
  - cbn. split; [done | constructor].
  - rewrite foldl_snoc. by apply scheduler_step_inv.
Qed.

(** X28. The scheduler never leaves a cron task behind.  After any
    sequence of [start] and [stop] calls on a new scheduler, the cron tasks
    that are started in the process are exactly seven when [isRunning] is
    set and none when it is not, and [getJobStatus] reports that same
    number as [totalJobs], every reported job being started: a repeated
    [start] schedules nothing twice, and [stop] stops each task before it
    forgets it. *)
Theorem scheduler_tasks_follow_running_flag calls :
  let s := foldl scheduler_step new_scheduler calls in
  started_tasks s = (if isRunning s then 7%nat else 0%nat) /\
  (getJobStatus s).1.2 = (if isRunning s then 7%nat else 0%nat) /\
  (forall name started, (getJobStatus s).2 !! name = Some started -> started = true).
Proof.
  intros s. pose proof (scheduler_run_inv calls) as Hinv. fold s in Hinv.
  unfold scheduler_inv, started_tasks, getJobStatus in *. cbn [fst snd].
  destruct (isRunning s).
  - destruct Hinv as (old & Hold & Htasks & Hjobs). rewrite Htasks, Hjobs.
    split; [|split].
    + rewrite filter_app, length_app, (none_started_filter old Hold). done.
    + unfold jobs_from. rewrite !map_size_insert_None; [by rewrite map_size_empty|..];
        by rewrite ?lookup_insert_ne, ?lookup_empty.
    + intros name started. rewrite lookup_omap.
      destruct (jobs_from (length old) !! name) as [i|] eqn:Hi; [|done]. cbn.
      assert (i ∈ (snd <$> map_to_list (jobs_from (length old)))) as Hpos.
      { apply list_elem_of_fmap. exists (name, i). split; [done|].
        by apply elem_of_map_to_list. }
      apply jobs_from_positions in Hpos.
      rewrite lookup_app_r by lia.
      destruct (i - length old)%nat as [|[|[|[|[|[|[|k]]]]]]] eqn:Hk; cbn;
        by intros [= <-].
  - destruct Hinv as [Hjobs Hnone]. rewrite Hjobs.
    split; [by rewrite (none_started_filter _ Hnone)|].
    split; [by rewrite map_size_empty|].
    intros name started. by rewrite lookup_omap, lookup_empty.
Qed.


(** ** [optionalAuth] and [authenticateToken] *)

(** X29. The optional and the mandatory authentication agree on who the
    requester is: on every header, [optionalAuth] sets [req.user] to the
    user that [authenticateToken] would let through with that header, and
    to [null] in each case in which [authenticateToken] would answer with
    an error (no token, bad or expired token, unknown or deactivated
    user). *)
Theorem optional_auth_agrees_with_authenticate verify authHeader users :
  optionalAuth verify authHeader users =
    match authenticateToken verify authHeader users with
    | AuthNext uid u => Some (uid, u)
    | _ => None
    end.
Proof.
  unfold optionalAuth, authenticateToken.
  destruct (bearer_token authHeader) as [token|]; [|done].
  destruct (verify token) as [userId| | |]; try done.
  destruct (users !! userId) as [u|]; [|done].
  by destruct (user_is_active u).
Qed.

(** ** The scheduler against the tables of [createTables] *)





(** ** Amounts that do not fit their column *)


